(** * The vanilla store of zustand ([createStoreImpl]) and its update law

    A shallow embedding of [src/vanilla.ts] (the part of the repository that
    holds the state cell, the listener registry and the four-operation store
    handle), followed by the properties of the design document that speak
    about it.

    JavaScript values are modelled with an explicit heap so that reference
    identity ([Object.is]) and the allocation done by [Object.assign({}, ..)]
    are visible; the closure variables [state], [initialState] and
    [listeners] of [createStoreImpl] are the fields of a [store] record that
    is threaded through every operation. *)

From Stdlib Require Import ZArith Lia.
From stdpp Require Import base option list strings gmap fin_maps pretty.

Open Scope Z_scope.
Open Scope nat_scope.

(** ** Values and the heap *)

Definition loc := nat.
Definition fid := nat.

(** Primitive values carry their payload; an object is a reference into the
    heap; a function is known by its identity.  Numbers are the integer
    valued ones, for which [Object.is] and equality coincide. *)
Inductive value : Type :=
| VUndefined
| VNull
| VBool (b : bool)
| VNum (n : Z)
| VStr (s : string)
| VObj (l : loc)
| VFun (f : fid).

#[global] Instance value_eq_dec : EqDecision value.
Proof. solve_decision. Defined.

Inductive jstype : Type :=
| TUndefined | TObject | TBoolean | TNumber | TString | TFunction.

#[global] Instance jstype_eq_dec : EqDecision jstype.
Proof. solve_decision. Defined.

(** [typeof v]; note [typeof null === 'object']. *)
Definition typeof (v : value) : jstype :=
  match v with
  | VUndefined => TUndefined
  | VNull => TObject
  | VBool _ => TBoolean
  | VNum _ => TNumber
  | VStr _ => TString
  | VObj _ => TObject
  | VFun _ => TFunction
  end.

(** [Object.is(a, b)]: same primitive, or same reference. *)
Definition Object_is (a b : value) : bool := bool_decide (a = b).

(** An object is the finite map of its own enumerable properties. *)
Abbreviation obj := (gmap string value).
Abbreviation heap := (list obj).

(** [{ ... }]: a new object at the first unused address. *)
Definition alloc (o : obj) (h : heap) : loc * heap := (length h, h ++ [o]).

(** The own enumerable properties of the characters of a string, as
    [ToObject] exposes them: ["ab"] has ["0"] and ["1"].  A character of
    the model is one code unit of the string: the strings meant are those
    of ASCII characters. *)
Fixpoint string_props (i : nat) (s : string) : obj :=
  match s with
  | EmptyString => ∅
  | String c s' => <[pretty i := VStr (String c EmptyString)]> (string_props (S i) s')
  end.

(** The own enumerable properties that [Object.assign] reads from one
    source.  [null] and [undefined] are skipped, numbers and booleans have
    none; the function values of the model are bare functions, without
    properties attached to them. *)
Definition own_props (h : heap) (source : value) : obj :=
  match source with
  | VObj l => default ∅ (h !! l)
  | VStr s => string_props 0 s
  | _ => ∅
  end.

(** What the writes [target[key] = value] that [Object.assign] makes for
    one source leave as own properties of a target created by [{}].  The
    key ["__proto__"] is not among them: on such a target that write runs
    the setter that [Object.prototype] has under this name, which creates
    no property.  (When the value is an object or [null] the setter gives
    the target another prototype.  Objects are modelled by their own
    properties and prototypes are not represented: the writes that follow
    such a change are modelled as if the prototype were still
    [Object.prototype].) *)
Definition written (h : heap) (source : value) : obj :=
  delete "__proto__" (own_props h source).

(** A value whose properties the model knows in full and that
    [Object.assign] copies as they are: a value without properties
    ([undefined], [null], a boolean, a number), or an object none of whose
    own properties is named ["__proto__"]. *)
Definition plain (h : heap) (v : value) : Prop :=
  match v with
  | VObj l => ∀ o, h !! l = Some o → o !! "__proto__" = None
  | VStr _ | VFun _ => False
  | _ => True
  end.

(** One source of [Object.assign]: what the writes for this source leave
    is put on the target object, in place; properties the target already
    has and the source lacks stay. *)
Definition assign_from (target : loc) (h : heap) (source : value) : heap :=
  alter (λ o, written h source ∪ o) target h.

(** [Object.assign(target, ...sources)], sources from left to right. *)
Definition Object_assign (target : loc) (sources : list value) (h : heap) : heap :=
  foldl (assign_from target) h sources.

(** ** The closure state of [createStoreImpl] *)

(** What an observer sees: a listener being invoked with its two arguments,
    and whatever the user's functions make visible themselves. *)
Inductive event : Type :=
| Notified (listener : fid) (next previous : value)
| Emitted (v : value).

#[global] Instance event_eq_dec : EqDecision event.
Proof. solve_decision. Defined.

(** [listeners] is a JavaScript [Set]: its data is the list of entries in
    insertion order, where [delete] empties an entry in place (so that a
    running [forEach] keeps its index) and [add] appends. *)
Record store : Type := mkStore {
  heap_of : heap;
  state : value;
  initialState : option value;
  listeners : list (option fid);
  trace : list event;
}.

Definition set_heap (h : heap) (s : store) : store :=
  mkStore h (state s) (initialState s) (listeners s) (trace s).
Definition set_state (v : value) (s : store) : store :=
  mkStore (heap_of s) v (initialState s) (listeners s) (trace s).
Definition set_initialState (v : value) (s : store) : store :=
  mkStore (heap_of s) (state s) (Some v) (listeners s) (trace s).
Definition set_listeners (ls : list (option fid)) (s : store) : store :=
  mkStore (heap_of s) (state s) (initialState s) ls (trace s).
Definition log (e : event) (s : store) : store :=
  mkStore (heap_of s) (state s) (initialState s) (listeners s) (trace s ++ [e]).

(** [Set.prototype.has], [add] and [delete]. *)
Definition Set_has (es : list (option fid)) (f : fid) : bool :=
  bool_decide (Some f ∈ es).
Definition Set_add (f : fid) (es : list (option fid)) : list (option fid) :=
  if Set_has es f then es else es ++ [Some f].
Definition Set_delete (f : fid) (es : list (option fid)) : list (option fid) :=
  (λ e, if decide (e = Some f) then None else e) <$> es.

(** ** User code

    The functions a caller hands to the store (updaters, listeners, the
    initializer) are programs over the store's operations.  They may
    allocate and read objects, but have no operation that writes into an
    existing one: snapshots are immutable by convention. *)
Inductive prog (A : Type) : Type :=
| Done (a : A)
| Throw (e : value)
| Emit (v : value) (k : prog A)
| Alloc (o : obj) (k : loc → prog A)
| Read (l : loc) (k : obj → prog A)
| CallSetState (partial : value) (replace : option bool) (k : prog A)
| CallGetState (k : value → prog A)
| CallGetInitialState (k : value → prog A)
| CallSubscribe (listener : fid) (k : prog A)
| CallUnsubscribe (listener : fid) (k : prog A).
Arguments Done {A} a.
Arguments Throw {A} e.
Arguments Emit {A} v k.
Arguments Alloc {A} o k.
Arguments Read {A} l k.
Arguments CallSetState {A} partial replace k.
Arguments CallGetState {A} k.
Arguments CallGetInitialState {A} k.
Arguments CallSubscribe {A} listener k.
Arguments CallUnsubscribe {A} listener k.

(** A call either returns or throws; the store is the one at that moment. *)
Inductive outcome (A : Type) : Type :=
| Normal (a : A) (s : store)
| Threw (e : value) (s : store).
Arguments Normal {A} a s.
Arguments Threw {A} e s.

Definition ReferenceError : value := VStr "ReferenceError".

(** ** The four operations *)

(** [getState = () => state] *)
Definition getState (s : store) : value := state s.

(** [getInitialState = () => initialState]; reading the [const] before the
    initializer has returned is a [ReferenceError]. *)
Definition getInitialState (s : store) : outcome value :=
  match initialState s with
  | Some v => Normal v s
  | None => Threw ReferenceError s
  end.

(** The closure [() => listeners.delete(listener)]. *)
Definition unsubscribe (listener : fid) (s : store) : store :=
  set_listeners (Set_delete listener (listeners s)) s.

(** [subscribe]: [listeners.add(listener)], and the closure is returned. *)
Definition subscribe (listener : fid) (s : store) : (store → store) * store :=
  (unsubscribe listener, set_listeners (Set_add listener (listeners s)) s).

Section SetState.
(** How a function value is called; [None] stands for a call that has not
    returned within the budget of steps. *)
Variable call : fid → list value → store → option (outcome value).

(** [listeners.forEach(cb)], by index over the live entries: an entry
    emptied before its turn is skipped, one appended meanwhile is reached.
    The first argument bounds the number of entries looked at. *)
Fixpoint forEach (n : nat) (index : nat)
    (cb : fid → store → option (outcome value)) (s : store)
    : option (outcome unit) :=
  match n with
  | O => None
  | S n' =>
    match listeners s !! index with
    | None => Some (Normal tt s)
    | Some None => forEach n' (S index) cb s
    | Some (Some f) =>
      match cb f s with
      | Some (Normal _ s') => forEach n' (S index) cb s'
      | Some (Threw e s') => Some (Threw e s')
      | None => None
      end
    end
  end.

(** [replace ?? (typeof nextState !== 'object' || nextState === null)] *)
Definition replaces (replace : option bool) (nextState : value) : bool :=
  match replace with
  | Some b => b
  | None => negb (bool_decide (typeof nextState = TObject))
            || bool_decide (nextState = VNull)
  end.

(** The assignment to [state]: the candidate itself, or
    [Object.assign({}, state, nextState)]. *)
Definition assign_state (replace : option bool) (nextState : value)
    (s : store) : store :=
  if replaces replace nextState then set_state nextState s
  else
    let '(target, h) := alloc ∅ (heap_of s) in
    let h' := Object_assign target [state s; nextState] h in
    set_state (VObj target) (set_heap h' s).

(** [(listener) => listener(state, previousState)]; [state] is the closure
    variable, read when the listener is called. *)
Definition notify_one (previousState : value) (listener : fid) (s : store)
    : option (outcome value) :=
  call listener [state s; previousState]
       (log (Notified listener (state s) previousState) s).

(** [typeof partial === 'function' ? partial(state) : partial] *)
Definition nextState_of (partial : value) (s : store) : option (outcome value) :=
  match partial with
  | VFun f => call f [state s] s
  | _ => Some (Normal partial s)
  end.

(** [listeners.forEach((listener) => listener(state, previousState))] *)
Definition notify (n : nat) (previousState : value) (s : store)
    : option (outcome unit) :=
  forEach n 0 (notify_one previousState) s.

Definition setState (n : nat) (partial : value) (replace : option bool)
    (s : store) : option (outcome unit) :=
  match nextState_of partial s with
  | None => None
  | Some (Threw e s1) => Some (Threw e s1)
  | Some (Normal nextState s1) =>
    if negb (Object_is nextState (state s1)) then
      let previousState := state s1 in
      notify n previousState (assign_state replace nextState s1)
    else Some (Normal tt s1)
  end.

(** Running a piece of user code against the store. *)
Fixpoint run (n : nat) {A} (p : prog A) (s : store) : option (outcome A) :=
  match p with
  | Done a => Some (Normal a s)
  | Throw e => Some (Threw e s)
  | Emit v k => run n k (log (Emitted v) s)
  | Alloc o k =>
    let '(l, h) := alloc o (heap_of s) in run n (k l) (set_heap h s)
  | Read l k => run n (k (default ∅ (heap_of s !! l))) s
  | CallSetState partial replace k =>
    match setState n partial replace s with
    | Some (Normal _ s') => run n k s'
    | Some (Threw e s') => Some (Threw e s')
    | None => None
    end
  | CallGetState k => run n (k (getState s)) s
  | CallGetInitialState k =>
    match getInitialState s with
    | Normal v s' => run n (k v) s'
    | Threw e s' => Some (Threw e s')
    end
  | CallSubscribe listener k => run n k (subscribe listener s).2
  | CallUnsubscribe listener k => run n k (unsubscribe listener s)
  end.
End SetState.

Section Store.
(** The code of every function value in play. *)
Variable body : fid → list value → prog value.

Fixpoint call_fn (fuel : nat) (f : fid) (args : list value) (s : store)
    : option (outcome value) :=
  match fuel with
  | O => None
  | S n => run (call_fn n) n (body f args) s
  end.

Definition exec (fuel : nat) {A} (p : prog A) (s : store) : option (outcome A) :=
  run (call_fn fuel) fuel p s.

Definition store_setState (fuel : nat) (partial : value) (replace : option bool)
    (s : store) : option (outcome unit) :=
  setState (call_fn fuel) fuel partial replace s.
End Store.

(** The store of an outcome, whichever way the call ended. *)
Definition store_of {A} (r : outcome A) : store :=
  match r with Normal _ s => s | Threw _ s => s end.

(** The listener invocations of a trace, in order. *)
Definition notifications (t : list event) : list (fid * value * value) :=
  omap (λ e, match e with
             | Notified f next previous => Some (f, next, previous)
             | Emitted _ => None
             end) t.

(** The listeners that are registered: the entries that are not empty. *)
Definition registered (s : store) : list fid := omap id (listeners s).

(** A reference is valid when it points into the heap. *)
Definition valid (h : heap) (v : value) : Prop :=
  match v with VObj l => l < length h | _ => True end.

Section Sequences.
Variable body : fid → list value → prog value.

(** Mutations issued one after the other by a caller; the first one that
    throws ends the sequence. *)
Fixpoint setState_seq (fuel : nat) (calls : list (value * option bool))
    (s : store) : option (outcome unit) :=
  match calls with
  | [] => Some (Normal tt s)
  | (partial, replace) :: rest =>
    match store_setState body fuel partial replace s with
    | Some (Normal _ s') => setState_seq fuel rest s'
    | other => other
    end
  end.
End Sequences.

(** ** Construction *)

(** The store handle [api = { setState, getState, getInitialState,
    subscribe }] as user code holds it: each field is the operation as a
    program; [subscribe] hands back the closure that unsubscribes. *)
Record StoreApi : Type := mkApi {
  api_setState : value → option bool → prog unit;
  api_getState : prog value;
  api_getInitialState : prog value;
  api_subscribe : fid → prog (prog unit);
}.

Definition api : StoreApi := {|
  api_setState := λ partial replace, CallSetState partial replace (Done tt);
  api_getState := CallGetState Done;
  api_getInitialState := CallGetInitialState Done;
  api_subscribe := λ listener,
    CallSubscribe listener (Done (CallUnsubscribe listener (Done tt)));
|}.

(** Sequencing of user code. *)
Fixpoint prog_bind {A B} (p : prog A) (k : A → prog B) : prog B :=
  match p with
  | Done a => k a
  | Throw e => Throw e
  | Emit v p' => Emit v (prog_bind p' k)
  | Alloc o p' => Alloc o (λ l, prog_bind (p' l) k)
  | Read l p' => Read l (λ o, prog_bind (p' o) k)
  | CallSetState partial replace p' => CallSetState partial replace (prog_bind p' k)
  | CallGetState p' => CallGetState (λ v, prog_bind (p' v) k)
  | CallGetInitialState p' => CallGetInitialState (λ v, prog_bind (p' v) k)
  | CallSubscribe f p' => CallSubscribe f (prog_bind p' k)
  | CallUnsubscribe f p' => CallUnsubscribe f (prog_bind p' k)
  end.

(** The initializer [createState(setState, getState, api)]. *)
Definition StateCreator : Type :=
  (value → option bool → prog unit) → prog value → StoreApi → prog value.

(** The closure variables as [createStoreImpl] declares them: [let state]
    is [undefined], [listeners] is empty and the [const initialState] is
    not initialised yet.  [h] is the heap of the program at that time. *)
Definition fresh_store (h : heap) : store := mkStore h VUndefined None [] [].

Section Create.
Variable body : fid → list value → prog value.

(** [const initialState = (state = createState(setState, getState, api))]
    and [return api]. *)
Definition createStoreImpl (fuel : nat) (createState : StateCreator)
    (h : heap) : option (outcome StoreApi) :=
  match exec body fuel
          (createState (api_setState api) (api_getState api) api)
          (fresh_store h) with
  | Some (Normal v s) => Some (Normal api (set_initialState v (set_state v s)))
  | Some (Threw e s) => Some (Threw e s)
  | None => None
  end.
End Create.

(** ** What user code may be assumed to do *)

(** Every [subscribe] call in the program registers a listener in [ok]. *)
Fixpoint subscribes_only {A} (ok : fid → Prop) (p : prog A) : Prop :=
  match p with
  | Done _ | Throw _ => True
  | Emit _ k => subscribes_only ok k
  | Alloc _ k => ∀ l, subscribes_only ok (k l)
  | Read _ k => ∀ o, subscribes_only ok (k o)
  | CallSetState _ _ k => subscribes_only ok k
  | CallGetState k => ∀ v, subscribes_only ok (k v)
  | CallGetInitialState k => ∀ v, subscribes_only ok (k v)
  | CallSubscribe f k => ok f ∧ subscribes_only ok k
  | CallUnsubscribe _ k => subscribes_only ok k
  end.

(** Every [unsubscribe] call in the program removes a listener in [ok]. *)
Fixpoint unsubscribes_only {A} (ok : fid → Prop) (p : prog A) : Prop :=
  match p with
  | Done _ | Throw _ => True
  | Emit _ k => unsubscribes_only ok k
  | Alloc _ k => ∀ l, unsubscribes_only ok (k l)
  | Read _ k => ∀ o, unsubscribes_only ok (k o)
  | CallSetState _ _ k => unsubscribes_only ok k
  | CallGetState k => ∀ v, unsubscribes_only ok (k v)
  | CallGetInitialState k => ∀ v, unsubscribes_only ok (k v)
  | CallSubscribe _ k => unsubscribes_only ok k
  | CallUnsubscribe f k => ok f ∧ unsubscribes_only ok k
  end.

(** A function that only looks: it reads the store and the heap, builds
    objects and reports, and neither mutates the store, touches the
    registry nor throws. *)
Fixpoint observer {A} (p : prog A) : Prop :=
  match p with
  | Done _ => True
  | Emit _ k => observer k
  | Alloc _ k => ∀ l, observer (k l)
  | Read _ k => ∀ o, observer (k o)
  | CallGetState k => ∀ v, observer (k v)
  | Throw _ | CallSetState _ _ _ | CallGetInitialState _
  | CallSubscribe _ _ | CallUnsubscribe _ _ => False
  end.

(** A function that, besides looking, subscribes and unsubscribes
    listeners (itself or others). *)
Fixpoint registry_only {A} (p : prog A) : Prop :=
  match p with
  | Done _ => True
  | Emit _ k => registry_only k
  | Alloc _ k => ∀ l, registry_only (k l)
  | Read _ k => ∀ o, registry_only (k o)
  | CallGetState k => ∀ v, registry_only (k v)
  | CallSubscribe _ k => registry_only k
  | CallUnsubscribe _ k => registry_only k
  | Throw _ | CallSetState _ _ _ | CallGetInitialState _ => False
  end.

(** A function that behaves when it is called as a listener: its code has
    no call of [setState] and no [throw], and it calls [getInitialState]
    only where that returns ([constructed]: the initializer has returned).
    It may read, build objects, report, subscribe and unsubscribe. *)
Fixpoint polite {A} (constructed : Prop) (p : prog A) : Prop :=
  match p with
  | Done _ => True
  | Throw _ | CallSetState _ _ _ => False
  | Emit _ k => polite constructed k
  | Alloc _ k => ∀ l, polite constructed (k l)
  | Read _ k => ∀ o, polite constructed (k o)
  | CallGetState k => ∀ v, polite constructed (k v)
  | CallGetInitialState k => constructed ∧ ∀ v, polite constructed (k v)
  | CallSubscribe _ k => polite constructed k
  | CallUnsubscribe _ k => polite constructed k
  end.

(** ** Relations between the store before and the store after *)

(** A way of calling functions keeps the relation [R] between the store
    it is given and the store it leaves, whether it returns or throws. *)
Definition call_keeps (R : store → store → Prop)
    (call : fid → list value → store → option (outcome value)) : Prop :=
  ∀ f args s r, call f args s = Some r → R s (store_of r).

(** The [const initialState] keeps its value, and the heap only grows at
    its end: an object that exists keeps its fields. *)
Definition frame (s s' : store) : Prop :=
  initialState s' = initialState s ∧ heap_of s `prefix_of` heap_of s'.

(** What it means for the initial snapshot [v] of the store [s0] to be
    intact in a later store [s']: [getInitialState()] returns [v], and the
    objects that existed in [s0] have the fields they had. *)
Definition initial_kept (v : value) (s0 s' : store) : Prop :=
  getInitialState s' = Normal v s'
  ∧ (∀ l o, heap_of s0 !! l = Some o → heap_of s' !! l = Some o)
  ∧ (∀ w, valid (heap_of s0) w → own_props (heap_of s') w = own_props (heap_of s0) w).

(** The invocations of listener [f] in a trace. *)
Definition notified (f : fid) (t : list event) : list (fid * value * value) :=
  filter (λ x, x.1.1 = f) (notifications t).

(** A listener that is not registered stays out of the registry and is
    not invoked. *)
Definition silent (f : fid) (s s' : store) : Prop :=
  f ∉ registered s →
  (f ∉ registered s') ∧ notified f (trace s') = notified f (trace s).

(** How the registry and the trace evolve: the trace is extended, and an
    entry of the registry, once there, keeps its index and its listener
    until it is emptied; new entries come after the existing ones. *)
Definition grows (s s' : store) : Prop :=
  (∃ new, trace s' = trace s ++ new)
  ∧ length (listeners s) ≤ length (listeners s')
  ∧ ∀ j f, j < length (listeners s) →
           listeners s' !! j = Some (Some f) → listeners s !! j = Some (Some f).

(** The registry had [len0] entries when the pass began; the entries added
    since are distinct listeners among [univ], none of them emptied. *)
Definition bounded_registry (len0 : nat) (univ : list fid) (s : store) : Prop :=
  len0 ≤ length (listeners s)
  ∧ ∃ extra, drop len0 (listeners s) = Some <$> extra
      ∧ NoDup extra ∧ ∀ g, g ∈ extra → g ∈ univ.

(** ** Stores and functions used as concrete instances *)

(** Functions that return at once. *)
Definition idle : fid → list value → prog value := λ _ _, Done VUndefined.

(** The function [(s) => s], whatever its identity. *)
Definition identity_fn : fid → list value → prog value :=
  λ _ args, Done (default VUndefined (head args)).

(** A counter: the initializer announces itself and returns the new object
    [{count: 0}]; function 0 is the updater [() => ({count: 1})]. *)
Definition counter_init : StateCreator :=
  λ _ _ _, Emit (VStr "init") (Alloc {[ "count" := VNum 0 ]} (λ l, Done (VObj l))).

Definition counter_fns : fid → list value → prog value :=
  λ f _, match f with
         | 0 => Alloc {[ "count" := VNum 1 ]} (λ l, Done (VObj l))
         | _ => Done VUndefined
         end.

(** Listener 1 re-enters [setState] with the object at address 2 when the
    previous snapshot it is given is the object at address 0; listener 2
    returns at once. *)
Definition reentrant : fid → list value → prog value :=
  λ f args,
    match f, args with
    | 1, [_; VObj 0] => CallSetState (VObj 2) None (Done VUndefined)
    | _, _ => Done VUndefined
    end.

(** Listener 1 throws; listener 2 returns at once. *)
Definition throwing : fid → list value → prog value :=
  λ f _,
    match f with
    | 1 => Throw (VStr "boom")
    | _ => Done VUndefined
    end.

(** Listeners 1, 2 and 3 are registered in that order.  Listener 1
    unsubscribes itself and listener 2 and subscribes listener 4; the
    others return at once. *)
Definition meddling : fid → list value → prog value :=
  λ f _,
    match f with
    | 1 => CallUnsubscribe 1 (CallUnsubscribe 2 (CallSubscribe 4 (Done VUndefined)))
    | _ => Done VUndefined
    end.

Definition store_123 : store :=
  mkStore [ {[ "n" := VNum 0 ]}; {[ "n" := VNum 1 ]}; {[ "n" := VNum 2 ]} ]
          (VObj 0) (Some (VObj 0)) [Some 1; Some 2; Some 3] [].

(** The state [{a: 0, b: 2}] at address 0, the candidate [{a: 1}] at
    address 1, one registered listener. *)
Definition store_ab : store :=
  mkStore [ {[ "a" := VNum 0; "b" := VNum 2 ]}; {[ "a" := VNum 1 ]} ]
          (VObj 0) (Some (VObj 0)) [Some 7] [].

(** The state [{a: 1}] at address 0 and a second object [{a: 1}] with the
    same fields at address 1; one registered listener. *)
Definition store_twins : store :=
  mkStore [ {[ "a" := VNum 1 ]}; {[ "a" := VNum 1 ]} ]
          (VObj 0) (Some (VObj 0)) [Some 7] [].

(** A store whose state is the number [3]. *)
Definition store_three : store := mkStore [] (VNum 3) (Some (VNum 3)) [] [].

(** The state [{n: 0}] at address 0, candidates [{n: 1}] and [{n: 2}] at
    addresses 1 and 2, listeners 1 and 2 registered in that order. *)
Definition store_n : store :=
  mkStore [ {[ "n" := VNum 0 ]}; {[ "n" := VNum 1 ]}; {[ "n" := VNum 2 ]} ]
          (VObj 0) (Some (VObj 0)) [Some 1; Some 2] [].

(** The state [{a: 0, b: 2}] at address 0; the candidate at address 1 has
    the own properties [a: 1] and [__proto__: 5] (as
    [JSON.parse('{"a": 1, "__proto__": 5}')] builds it). *)
Definition store_proto : store :=
  mkStore [ {[ "a" := VNum 0; "b" := VNum 2 ]};
            {[ "a" := VNum 1; "__proto__" := VNum 5 ]} ]
          (VObj 0) (Some (VObj 0)) [] [].

(** Listener 1 calls [getInitialState()]; listener 2 returns at once. *)
Definition peeking : fid → list value → prog value :=
  λ f _,
    match f with
    | 1 => CallGetInitialState (λ _, Done VUndefined)
    | _ => Done VUndefined
    end.

(** A store whose initializer has not returned yet: it has subscribed
    listeners 1 and 2; the object [{n: 1}] is at address 0. *)
Definition store_building : store :=
  mkStore [ {[ "n" := VNum 1 ]} ] VUndefined None [Some 1; Some 2] [].

(** ** Persistence *)

Module Persist.

Inductive result (A : Type) : Type :=
| Ok (a : A)
| Raise (e : value).
Arguments Ok {A} a.
Arguments Raise {A} e.

(** Modelled from the spec: the hydration status of the persistence
    middleware, whose code ([middleware/persist.ts]) is not part of the
    sources at hand: [NotStarted | InProgress | Completed(success|error)]. *)
Inductive HydrationResult : Type :=
| Success
| Error (e : value).

Inductive HydrationStatus : Type :=
| NotStarted
| InProgress
| Completed (r : HydrationResult).

(** [StorageValue<S> = { state: S; version?: number }] *)
Record StorageValue : Type := mkStorageValue {
  sv_state : obj;
  sv_version : Z;
}.

(** [PersistOptions], with the raw storage's [getItem] and the
    deserialization of the text it returns; both may fail. *)
Record PersistOptions : Type := mkOptions {
  name : string;
  raw_getItem : string → result (option string);
  deserialize : string → result StorageValue;
  version : Z;
  migrate : option (obj → Z → result obj);
  merge : obj → obj → result obj;
  skipHydration : bool;
  onRehydrateStorage : option fid;
}.

(** Modelled from the spec: the calls made to lifecycle observers,
    [onHydrate] callbacks with the state before hydration,
    hydration-finished callbacks with
    [(finalState | undefined, error | undefined)]; and the state of the
    subsystem, with its attempt counter and registered observers. *)
Inductive lifecycle : Type :=
| HydrateStarted (cb : fid) (current : value)
| HydrateFinished (cb : fid) (final : option value) (error : option value).

Record hydration : Type := mkHydration {
  status : HydrationStatus;
  attempts : nat;
  onHydrate : list fid;
  onFinishHydration : list fid;
  calls : list lifecycle;
}.

(** Modelled from the spec: typed envelope storage, "parse text into
    [{state, version}] or null if absent"; a read or deserialization
    failure does not pass this boundary as an exception, it is the load
    error. *)
Definition getItem (o : PersistOptions) : result (option StorageValue) :=
  match raw_getItem o (name o) with
  | Raise e => Raise e
  | Ok None => Ok None
  | Ok (Some text) =>
    match deserialize o text with
    | Raise e => Raise e
    | Ok sv => Ok (Some sv)
    end
  end.

(** Modelled from the spec: the default merge, "persisted fields
    override current fields, fields absent from the persisted value are
    preserved from current state". *)
Definition default_merge (persisted current : obj) : result obj :=
  Ok (persisted ∪ current).

(** Modelled from the spec: the observers of the end of a hydration
    attempt, the function that [onRehydrateStorage] returned, then those
    registered with [onFinishHydration]. *)
Definition finish_observers (o : PersistOptions) (p : hydration) : list fid :=
  match onRehydrateStorage o with Some cb => [cb] | None => [] end
  ++ onFinishHydration p.

(** Modelled from the spec: NotStarted/Completed → InProgress; the
    attempt is counted and [onHydrate] observers receive the current
    state. *)
Definition begin_hydration (current : value) (p : hydration) : hydration :=
  mkHydration InProgress (S (attempts p)) (onHydrate p) (onFinishHydration p)
    (calls p ++ ((λ cb, HydrateStarted cb current) <$> onHydrate p)).

(** Modelled from the spec: InProgress → Completed; "in both cases,
    hydration-finished callbacks fire with
    [(finalState|undefined, error|undefined)]". *)
Definition complete (o : PersistOptions) (r : HydrationResult)
    (final : option value) (p : hydration) : hydration :=
  mkHydration (Completed r) (attempts p) (onHydrate p) (onFinishHydration p)
    (calls p
     ++ ((λ cb, HydrateFinished cb final
                  (match r with Success => None | Error e => Some e end))
         <$> finish_observers o p)).

(** Modelled from the spec: the persisted value, passed through the
    migration function when the versions differ and one is configured,
    used as it is otherwise. *)
Definition migrated (o : PersistOptions) (sv : StorageValue) : result obj :=
  if bool_decide (sv_version sv = version o) then Ok (sv_state sv)
  else match migrate o with
       | Some f => f (sv_state sv) (sv_version sv)
       | None => Ok (sv_state sv)
       end.

Section Hydrate.
Variable body : fid → list value → prog value.

(** Modelled from the spec (4.6 and 7): one hydration attempt.  The
    envelope is loaded; absent, nothing is merged; present, it is
    migrated, merged with the current state, and the result is applied
    through the core's [setState] with full replacement.  An error of
    load, migration or merge ends the attempt as Completed(error) and
    leaves the store alone. *)
Definition rehydrate (fuel : nat) (o : PersistOptions)
    (p : hydration) (s : store) : option (outcome hydration) :=
  let p1 := begin_hydration (state s) p in
  match getItem o with
  | Raise e => Some (Normal (complete o (Error e) None p1) s)
  | Ok None => Some (Normal (complete o Success (Some (state s)) p1) s)
  | Ok (Some sv) =>
    match migrated o sv with
    | Raise e => Some (Normal (complete o (Error e) None p1) s)
    | Ok persisted =>
      match merge o persisted (own_props (heap_of s) (state s)) with
      | Raise e => Some (Normal (complete o (Error e) None p1) s)
      | Ok merged =>
        let '(l, h) := alloc merged (heap_of s) in
        match store_setState body fuel (VObj l) (Some true) (set_heap h s) with
        | Some (Normal _ s') =>
          Some (Normal (complete o Success (Some (state s')) p1) s')
        | Some (Threw e s') => Some (Threw e s')
        | None => None
        end
      end
    end
  end.

(** Modelled from the spec: construction of a persisted store: the
    core store is built, and unless [skipHydration] is set the first
    attempt begins at once. *)
Definition create_persisted (fuel : nat) (o : PersistOptions)
    (createState : StateCreator) (h : heap)
    : option (outcome (StoreApi * hydration)) :=
  match createStoreImpl body fuel createState h with
  | Some (Normal handle s) =>
    let p0 := mkHydration NotStarted 0 [] [] [] in
    if skipHydration o then Some (Normal (handle, p0) s)
    else match rehydrate fuel o p0 s with
         | Some (Normal p s') => Some (Normal (handle, p) s')
         | Some (Threw e s') => Some (Threw e s')
         | None => None
         end
  | Some (Threw e s) => Some (Threw e s)
  | None => None
  end.
End Hydrate.

(** A storage whose text cannot be parsed, and one that holds
    [{state: {count: 5}, version: 1}]. *)
Definition SyntaxError : value := VStr "SyntaxError".

Definition broken_storage : PersistOptions :=
  mkOptions "counter-storage" (λ _, Ok (Some "{count"))
            (λ _, Raise SyntaxError) 1 None default_merge false (Some 9).

Definition good_storage : PersistOptions :=
  mkOptions "counter-storage" (λ _, Ok (Some "{state:{count:5},version:1}"))
            (λ _, Ok (mkStorageValue {[ "count" := VNum 5 ]} 1))
            1 None default_merge false (Some 9).

End Persist.

(** ** Further assumptions and instances *)

(** A function that never calls [setState]. *)
Fixpoint never_sets {A} (p : prog A) : Prop :=
  match p with
  | Done _ | Throw _ => True
  | Emit _ k => never_sets k
  | Alloc _ k => ∀ l, never_sets (k l)
  | Read _ k => ∀ o, never_sets (k o)
  | CallSetState _ _ _ => False
  | CallGetState k => ∀ v, never_sets (k v)
  | CallGetInitialState k => ∀ v, never_sets (k v)
  | CallSubscribe _ k => never_sets k
  | CallUnsubscribe _ k => never_sets k
  end.

(** The fields after merging the objects [ocs], one after the other, over
    the fields [o0]. *)
Definition merge_all (o0 : obj) (ocs : list obj) : obj :=
  foldl (λ acc oc, oc ∪ acc) o0 ocs.

(** The registry holds no listener twice. *)
Definition distinct (s s' : store) : Prop :=
  NoDup (registered s) → NoDup (registered s').

(** Listener 1 unsubscribes and subscribes itself again when it is
    notified; the others return at once. *)
Definition resubscribing : fid → list value → prog value :=
  λ f _,
    match f with
    | 1 => CallUnsubscribe 1 (CallSubscribe 1 (Done VUndefined))
    | _ => Done VUndefined
    end.

(** The state is [null]; the object [{n: 1}] is at address 0. *)
Definition store_null : store :=
  mkStore [ {[ "n" := VNum 1 ]} ] VNull (Some VNull) [] [].



(** A function that never calls [subscribe] nor a closure that
    [subscribe] returned. *)
Fixpoint registry_free {A} (p : prog A) : Prop :=
  match p with
  | Done _ | Throw _ => True
  | Emit _ k => registry_free k
  | Alloc _ k => ∀ l, registry_free (k l)
  | Read _ k => ∀ o, registry_free (k o)
  | CallSetState _ _ k => registry_free k
  | CallGetState k => ∀ v, registry_free (k v)
  | CallGetInitialState k => ∀ v, registry_free (k v)
  | CallSubscribe _ _ | CallUnsubscribe _ _ => False
  end.

(** * Properties *)

(** ** A proof rule for everything the store and user code can do

    A relation between the store before and the store after is kept by
    every run, however deeply listeners re-enter the store, as soon as it
    is reflexive, transitive and kept by each primitive step.  The step
    that notifies a listener only has to be considered for a listener that
    is registered at that moment, and the step that subscribes only for the
    listeners that user code is assumed to subscribe. *)
Section Preservation.
Variable body : fid → list value → prog value.
Variable ok : fid → Prop.
Variable R : store → store → Prop.

Hypothesis body_ok : ∀ f args, subscribes_only ok (body f args).
Hypothesis R_refl : ∀ s, R s s.
Hypothesis R_trans : ∀ s1 s2 s3, R s1 s2 → R s2 s3 → R s1 s3.
Hypothesis R_emit : ∀ s v, R s (log (Emitted v) s).
Hypothesis R_notify : ∀ s f previous,
  Some f ∈ listeners s → R s (log (Notified f (state s) previous) s).
Hypothesis R_alloc : ∀ s o, R s (set_heap (heap_of s ++ [o]) s).
Hypothesis R_assign : ∀ s replace v, R s (assign_state replace v s).
Hypothesis R_subscribe : ∀ s f, ok f → R s (subscribe f s).2.
Hypothesis R_unsubscribe : ∀ s f, R s (unsubscribe f s).

Lemma forEach_keeps cb n : ∀ i s r,
  (∀ f s r, Some f ∈ listeners s → cb f s = Some r → R s (store_of r)) →
  forEach n i cb s = Some r → R s (store_of r).
Proof.
  induction n as [|n IH]; intros i s r Hcb; simpl; [discriminate|].
  destruct (listeners s !! i) as [[f|]|] eqn:Hi.
  - destruct (cb f s) as [[v s'|e s']|] eqn:Hf; [|intros [= <-]|discriminate].
    + intros Hrest. eapply R_trans; [|eapply IH; eauto].
      apply (Hcb f s (Normal v s')); [|done].
      eapply list_elem_of_lookup_2; eauto.
    + apply (Hcb f s (Threw e s')); [|done].
      eapply list_elem_of_lookup_2; eauto.
  - eauto.
  - intros [= <-]. apply R_refl.
Qed.

Lemma notify_keeps call n previous s r :
  call_keeps R call → notify call n previous s = Some r → R s (store_of r).
Proof.
  intros Hc. unfold notify. apply forEach_keeps.
  intros f s' r' Hin Hcall. unfold notify_one in Hcall.
  eapply R_trans; [apply R_notify, Hin|]. apply (Hc _ _ _ _ Hcall).
Qed.

Lemma setState_keeps call n partial replace s r :
  call_keeps R call → setState call n partial replace s = Some r → R s (store_of r).
Proof.
  intros Hc. unfold setState.
  destruct (nextState_of call partial s) as [[v s1|e s1]|] eqn:Hn; [| |discriminate].
  - assert (R s s1) as H1.
    { destruct partial; simpl in Hn; try (injection Hn as <- <-; apply R_refl).
      apply (Hc _ _ _ _ Hn). }
    destruct (negb (Object_is v (state s1))).
    + intros Hnot. eapply R_trans; [exact H1|].
      eapply R_trans; [apply R_assign|]. eapply notify_keeps; eauto.
    + intros [= <-]. exact H1.
  - intros [= <-]. destruct partial; simpl in Hn; try discriminate.
    apply (Hc _ _ _ _ Hn).
Qed.

Lemma run_keeps call n {A} (p : prog A) : ∀ s r,
  call_keeps R call → subscribes_only ok p →
  run call n p s = Some r → R s (store_of r).
Proof.
  induction p as [a|e|v k IH|o k IH|l k IH|pa rp k IH|k IH|k IH|f k IH|f k IH];
    intros s r Hc Hok; simpl in *.
  - intros [= <-]. apply R_refl.
  - intros [= <-]. apply R_refl.
  - intros Hr. eapply R_trans; [apply R_emit|]. eapply IH; eauto.
  - intros Hr. eapply R_trans; [apply (R_alloc s o)|]. eapply IH; eauto.
  - intros Hr. eapply IH; eauto.
  - destruct (setState call n pa rp s) as [[u s'|e s']|] eqn:Hs; [| |discriminate].
    + intros Hr. eapply R_trans; [apply (setState_keeps _ _ _ _ _ _ Hc Hs)|].
      eapply IH; eauto.
    + intros [= <-]. apply (setState_keeps _ _ _ _ _ _ Hc Hs).
  - intros Hr. eapply IH; eauto.
  - unfold getInitialState. destruct (initialState s).
    + intros Hr. eapply IH; eauto.
    + intros [= <-]. apply R_refl.
  - destruct Hok as [Hf Hk]. intros Hr.
    eapply R_trans; [apply (R_subscribe s f Hf)|]. eapply IH; eauto.
  - intros Hr. eapply R_trans; [apply (R_unsubscribe s f)|]. eapply IH; eauto.
Qed.

Lemma call_fn_keeps fuel : call_keeps R (call_fn body fuel).
Proof.
  induction fuel as [|n IH]; intros f args s r; simpl; [discriminate|].
  apply run_keeps; auto.
Qed.

Lemma exec_keeps fuel {A} (p : prog A) s r :
  subscribes_only ok p → exec body fuel p s = Some r → R s (store_of r).
Proof. apply run_keeps, call_fn_keeps. Qed.

Lemma store_setState_keeps fuel partial replace s r :
  store_setState body fuel partial replace s = Some r → R s (store_of r).
Proof. apply setState_keeps, call_fn_keeps. Qed.

Lemma setState_seq_keeps fuel calls : ∀ s r,
  setState_seq body fuel calls s = Some r → R s (store_of r).
Proof.
  induction calls as [|[partial replace] rest IH]; intros s r; simpl.
  - intros [= <-]. apply R_refl.
  - destruct (store_setState body fuel partial replace s) as [[u s'|e s']|] eqn:Hs;
      [| |discriminate].
    + intros Hr. eapply R_trans; [apply (store_setState_keeps _ _ _ _ _ Hs)|].
      eapply IH; eauto.
    + intros [= <-]. apply (store_setState_keeps _ _ _ _ _ Hs).
Qed.
End Preservation.

(** ** The state cell: what [setState] assigns *)

Lemma own_props_valid_app h extra v : valid h v → own_props (h ++ extra) v = own_props h v.
Proof.
  destruct v; simpl; try done. intros Hl. by rewrite lookup_app_l.
Qed.

Lemma own_props_fresh h v : own_props (h ++ [∅]) v = own_props h v.
Proof.
  destruct v as [| | | | |l|]; simpl; try done.
  destruct (decide (l < length h)) as [Hl|Hl].
  - by rewrite lookup_app_l.
  - rewrite (lookup_ge_None_2 h) by lia.
    destruct (decide (l = length h)) as [->|Hne].
    + by rewrite list_lookup_middle.
    + rewrite lookup_ge_None_2; [done|]. rewrite length_app. simpl. lia.
Qed.

Lemma alter_last {A} (f : A → A) (l : list A) x :
  alter f (length l) (l ++ [x]) = l ++ [f x].
Proof. rewrite alter_app_r_alt by lia. by rewrite Nat.sub_diag. Qed.

Lemma Object_assign_fresh h previous next :
  valid h next →
  Object_assign (length h) [previous; next] (h ++ [∅])
  = h ++ [written h next ∪ written h previous].
Proof.
  intros Hv. unfold Object_assign, assign_from, written. simpl.
  rewrite own_props_fresh.
  rewrite !alter_last. simpl.
  rewrite own_props_valid_app by done.
  by rewrite (right_id_L ∅ (∪)).
Qed.

Lemma assign_state_replaces replace next s :
  replaces replace next = true → assign_state replace next s = set_state next s.
Proof. unfold assign_state. by intros ->. Qed.

Lemma assign_state_merges replace next s :
  replaces replace next = false → valid (heap_of s) next →
  assign_state replace next s
  = set_state (VObj (length (heap_of s)))
      (set_heap (heap_of s ++ [written (heap_of s) next ∪ written (heap_of s) (state s)]) s).
Proof.
  unfold assign_state, alloc. intros -> Hv. by rewrite Object_assign_fresh.
Qed.

Lemma setState_accepts call n partial replace s next s1 :
  nextState_of call partial s = Some (Normal next s1) → next ≠ state s1 →
  setState call n partial replace s
  = notify call n (state s1) (assign_state replace next s1).
Proof.
  intros Hn Hne. unfold setState. rewrite Hn. unfold Object_is.
  by rewrite bool_decide_eq_false_2.
Qed.

Lemma setState_ignores call n partial replace s s1 :
  nextState_of call partial s = Some (Normal (state s1) s1) →
  setState call n partial replace s = Some (Normal tt s1).
Proof.
  intros Hn. unfold setState. rewrite Hn. unfold Object_is.
  by rewrite bool_decide_eq_true_2.
Qed.

(** ** Listeners that only observe *)

Lemma notifications_app t1 t2 :
  notifications (t1 ++ t2) = notifications t1 ++ notifications t2.
Proof. unfold notifications. apply omap_app. Qed.

(** An observer returns, whatever the budget, and leaves the cell and the
    registry as they were. *)
Lemma run_observer {A} (p : prog A) : ∀ s,
  observer p →
  ∃ a s', (∀ call n, run call n p s = Some (Normal a s'))
    ∧ state s' = state s ∧ listeners s' = listeners s
    ∧ initialState s' = initialState s
    ∧ notifications (trace s') = notifications (trace s)
    ∧ heap_of s `prefix_of` heap_of s'.
Proof.
  induction p as [a|e|v k IH|o k IH|l k IH|pa rp k IH|k IH|k IH|f k IH|f k IH];
    intros s Hobs; simpl in Hobs; try done.
  - exists a, s. by repeat split.
  - destruct (IH (log (Emitted v) s) Hobs) as (a & s' & Hrun & ? & ? & ? & Hn & ?).
    exists a, s'. repeat split; try done.
    rewrite Hn. simpl. rewrite notifications_app. simpl. by rewrite app_nil_r.
  - destruct (IH (length (heap_of s)) (set_heap (heap_of s ++ [o]) s) (Hobs _))
      as (a & s' & Hrun & ? & ? & ? & Hn & Hp).
    exists a, s'. repeat split; try done.
    etrans; [|exact Hp]. by apply prefix_app_r.
  - destruct (IH _ s (Hobs (default ∅ (heap_of s !! l))))
      as (a & s' & Hrun & ? & ? & ? & Hn & Hp).
    exists a, s'. by repeat split.
  - destruct (IH _ s (Hobs (getState s))) as (a & s' & Hrun & ? & ? & ? & Hn & Hp).
    exists a, s'. by repeat split.
Qed.

Section Observers.
Variable body : fid → list value → prog value.
Hypothesis observers : ∀ f args, observer (body f args).

Lemma call_observer fuel f args s :
  ∃ a s', call_fn body (S fuel) f args s = Some (Normal a s')
    ∧ state s' = state s ∧ listeners s' = listeners s
    ∧ initialState s' = initialState s
    ∧ notifications (trace s') = notifications (trace s)
    ∧ heap_of s `prefix_of` heap_of s'.
Proof.
  destruct (run_observer (body f args) s (observers _ _)) as (a & s' & Hrun & H).
  exists a, s'. split; [apply Hrun|exact H].
Qed.

(** With observers, a pass that starts at entry [i] invokes the
    listeners registered from there on, each once and in order, with the
    snapshot and the previous snapshot. *)
Lemma forEach_observers fuel previous n : ∀ i s,
  length (listeners s) - i < n →
  ∃ s', forEach n i (notify_one (call_fn body (S fuel)) previous) s
        = Some (Normal tt s')
    ∧ state s' = state s ∧ listeners s' = listeners s
    ∧ initialState s' = initialState s
    ∧ notifications (trace s')
      = notifications (trace s)
        ++ ((λ f, (f, state s, previous)) <$> omap id (drop i (listeners s)))
    ∧ heap_of s `prefix_of` heap_of s'.
Proof.
  induction n as [|n IH]; intros i s Hlen; [lia|]. cbn [forEach].
  destruct (listeners s !! i) as [[f|]|] eqn:Hi.
  - pose proof (lookup_lt_Some _ _ _ Hi) as Hlt.
    unfold notify_one at 1.
    destruct (call_observer fuel f [state s; previous]
                (log (Notified f (state s) previous) s))
      as (a & s1 & Hrun & Hst & Hls & Hin & Hn & Hp).
    rewrite Hrun.
    destruct (IH (S i) s1) as (s' & Hfe & Hst' & Hls' & Hin' & Hn' & Hp').
    { rewrite Hls. simpl. lia. }
    exists s'. rewrite Hfe. split; [done|].
    split; [simpl in *; congruence|]. split; [simpl in *; congruence|].
    split; [simpl in *; congruence|]. split.
    + rewrite Hn', Hn. simpl. rewrite notifications_app. simpl.
      rewrite Hls, Hst. simpl. rewrite (drop_S _ _ _ Hi). simpl.
      by rewrite <- app_assoc.
    + etrans; [|exact Hp']. exact Hp.
  - pose proof (lookup_lt_Some _ _ _ Hi) as Hlt.
    destruct (IH (S i) s) as (s' & Hfe & Hst' & Hls' & Hin' & Hn' & Hp'); [lia|].
    exists s'. rewrite Hfe. repeat split; try done.
    rewrite Hn'. by rewrite (drop_S _ _ _ Hi).
  - exists s. repeat split; try done.
    rewrite drop_ge; [by rewrite app_nil_r|].
    by apply lookup_ge_None_1.
Qed.

Lemma notify_observers fuel previous n s :
  length (listeners s) < n →
  ∃ s', notify (call_fn body (S fuel)) n previous s = Some (Normal tt s')
    ∧ state s' = state s ∧ listeners s' = listeners s
    ∧ initialState s' = initialState s
    ∧ notifications (trace s')
      = notifications (trace s)
        ++ ((λ f, (f, state s, previous)) <$> registered s)
    ∧ heap_of s `prefix_of` heap_of s'.
Proof.
  intros Hn. unfold notify, registered.
  destruct (forEach_observers fuel previous n 0 s) as (s' & ? & ? & ? & ? & ? & ?); [lia|].
  exists s'. by repeat split.
Qed.
End Observers.

(** ** The update law *)

Lemma own_props_prefix h h' v : valid h v → h `prefix_of` h' → own_props h' v = own_props h v.
Proof. intros Hv [extra ->]. by apply own_props_valid_app. Qed.

Lemma lookup_merge (oc o0 : obj) k :
  (oc ∪ o0) !! k = match oc !! k with Some v => Some v | None => o0 !! k end.
Proof. rewrite lookup_union. by destruct (oc !! k), (o0 !! k). Qed.

Lemma written_plain h v : plain h v → written h v = own_props h v.
Proof.
  unfold written. destruct v as [| | | | |l|]; simpl; try done.
  intros Hp. destruct (h !! l) as [o|] eqn:Hl; simpl; [|done].
  apply delete_id. by apply Hp.
Qed.

(** C1, as the code has it.  An object candidate on an object snapshot,
    neither of which has an own property named [__proto__]: with
    [replace = false] the new snapshot has the candidate's fields over the
    current ones (field by field, the candidate wins, absent fields stay,
    values are taken as they are).  With [replace = true] the new snapshot
    is the candidate, whatever its properties.  This is the snapshot with
    which [setState] goes on to notify, and the one [getState] returns
    afterwards when listeners only observe. *)
Theorem setState_shallow_merge_law body fuel partial s s1 l0 lc o0 oc :
  nextState_of (call_fn body fuel) partial s = Some (Normal (VObj lc) s1) →
  state s1 = VObj l0 → heap_of s1 !! l0 = Some o0 → heap_of s1 !! lc = Some oc →
  (o0 !! "__proto__" = None → oc !! "__proto__" = None →
   ∃ s2,
     store_setState body fuel partial (Some false) s
       = (if decide (lc = l0) then Some (Normal tt s2)
          else notify (call_fn body fuel) fuel (VObj l0) s2)
     ∧ own_props (heap_of s2) (getState s2) = oc ∪ o0
     ∧ ∀ k, own_props (heap_of s2) (getState s2) !! k
            = match oc !! k with Some v => Some v | None => o0 !! k end)
  ∧ (∃ s2,
     store_setState body fuel partial (Some true) s
       = (if decide (lc = l0) then Some (Normal tt s2)
          else notify (call_fn body fuel) fuel (VObj l0) s2)
     ∧ getState s2 = VObj lc
     ∧ own_props (heap_of s2) (getState s2) = oc)
  ∧ ((∀ f args, observer (body f args)) → length (listeners s1) < fuel →
     (o0 !! "__proto__" = None → oc !! "__proto__" = None →
      ∃ s', store_setState body fuel partial (Some false) s = Some (Normal tt s')
        ∧ own_props (heap_of s') (getState s') = oc ∪ o0)
     ∧ (∃ s', store_setState body fuel partial (Some true) s = Some (Normal tt s')
        ∧ getState s' = VObj lc
        ∧ own_props (heap_of s') (getState s') = oc)).
Proof.
  intros Hnext Hst H0 Hc. unfold store_setState, getState.
  assert (valid (heap_of s1) (VObj lc)) as Hvc by (eapply lookup_lt_Some; eauto).
  destruct (decide (lc = l0)) as [->|Hne].
  - (* the candidate is the current snapshot *)
    assert (oc = o0) as -> by congruence.
    rewrite <- Hst in Hnext.
    rewrite !(setState_ignores _ _ _ _ _ _ Hnext).
    assert (own_props (heap_of s1) (state s1) = o0) as Hown by (rewrite Hst; simpl; by rewrite H0).
    split; [|split; [|intros _ _; split]].
    + intros _ _. exists s1. rewrite Hown, (idemp (∪) o0). repeat split; try done.
      intros k. by destruct (o0 !! k).
    + exists s1. by rewrite Hown.
    + intros _ _. exists s1. by rewrite Hown, (idemp (∪) o0).
    + exists s1. by rewrite Hown.
  - assert (VObj lc ≠ state s1) as Hne' by (rewrite Hst; congruence).
    rewrite !(setState_accepts _ _ _ _ _ _ _ Hnext Hne').
    rewrite assign_state_merges, assign_state_replaces, Hst by done.
    set (s2 := set_state (VObj (length (heap_of s1))) _).
    assert (o0 !! "__proto__" = None → oc !! "__proto__" = None →
            own_props (heap_of s2) (state s2) = oc ∪ o0) as Hown.
    { intros Hp0 Hpc. subst s2. simpl. rewrite list_lookup_middle by done. simpl.
      rewrite !written_plain; simpl; [by rewrite H0, Hc| |];
        intros o Ho; congruence. }
    assert (own_props (heap_of (set_state (VObj lc) s1)) (VObj lc) = oc) as Hown'.
    { simpl. by rewrite Hc. }
    split; [|split; [|intros Hobs Hlen; split]].
    + intros Hp0 Hpc. exists s2. rewrite (Hown Hp0 Hpc). repeat split; try done.
      intros k. apply lookup_merge.
    + by exists (set_state (VObj lc) s1).
    + intros Hp0 Hpc. destruct fuel as [|fuel]; [lia|].
      destruct (notify_observers body Hobs fuel (VObj l0) (S fuel) s2)
        as (s' & Hnot & Hst' & _ & _ & _ & Hp); [done|].
      exists s'. split; [done|]. rewrite Hst'. rewrite <- (Hown Hp0 Hpc).
      apply own_props_prefix; [|done]. subst s2. simpl. rewrite length_app. simpl. lia.
    + destruct fuel as [|fuel]; [lia|].
      destruct (notify_observers body Hobs fuel (VObj l0) (S fuel) (set_state (VObj lc) s1))
        as (s' & Hnot & Hst' & _ & _ & _ & Hp); [done|].
      exists s'. split; [done|]. rewrite Hst'. split; [done|]. simpl.
      simpl in Hp. rewrite <- Hown'. by apply (own_props_prefix _ _ (VObj lc)).
Qed.

(** On [{a: 0, b: 2}], [setState({a: 1}, false)] yields [{a: 1, b: 2}] and
    [setState({a: 1}, true)] yields [{a: 1}]. *)
Lemma setState_shallow_merge_law_witness :
  (∃ s', store_setState idle 2 (VObj 1) (Some false) store_ab = Some (Normal tt s')
     ∧ own_props (heap_of s') (getState s') = {[ "a" := VNum 1; "b" := VNum 2 ]})
  ∧ (∃ s', store_setState idle 2 (VObj 1) (Some true) store_ab = Some (Normal tt s')
     ∧ getState s' = VObj 1
     ∧ own_props (heap_of s') (getState s') = {[ "a" := VNum 1 ]}).
Proof.
  destruct (setState_shallow_merge_law idle 2 (VObj 1) store_ab store_ab 0 1
              {[ "a" := VNum 0; "b" := VNum 2 ]} {[ "a" := VNum 1 ]}
              eq_refl eq_refl eq_refl eq_refl) as (_ & _ & H).
  destruct H as [Hmerge H3]; [intros; exact I|simpl; lia|].
  destruct Hmerge as (s' & H1 & H2); [reflexivity|reflexivity|].
  split; [|exact H3].
  exists s'. split; [exact H1|]. rewrite H2. by vm_compute.
Defined.

(** C1 fails as stated: the candidate has the own properties [a: 1] and
    [__proto__: 5].  [Object.assign] writes [target.__proto__ = 5], which
    is the setter of [Object.prototype] and creates nothing: the new
    snapshot is [{a: 1, b: 2}], and the candidate's field [__proto__] is
    not in it. *)
Lemma setState_merge_counterexample :
  ∃ s' oc,
    store_setState idle 2 (VObj 1) (Some false) store_proto = Some (Normal tt s')
    ∧ state store_proto = VObj 0
    ∧ heap_of store_proto !! 1 = Some oc
    ∧ oc !! "__proto__" = Some (VNum 5)
    ∧ own_props (heap_of s') (getState s') !! "__proto__" = None
    ∧ own_props (heap_of s') (getState s') = {[ "a" := VNum 1; "b" := VNum 2 ]}.
Proof.
  eexists _, _. split; [reflexivity|]. split; [reflexivity|]. split; [reflexivity|].
  split; [reflexivity|]. split; [reflexivity|]. by vm_compute.
Qed.

(** C2. A call whose candidate is the current snapshot itself changes
    nothing: the store after it is the store before it, trace of listener
    invocations included, and so for any sequence of such calls.  Identity
    is the only test: a candidate that is another value, whatever its
    fields, is assigned and the notification pass runs. *)
Theorem setState_identity_is_noop body fuel s :
  (∀ calls : list (value * option bool),
     Forall (λ c, nextState_of (call_fn body fuel) c.1 s = Some (Normal (state s) s)) calls →
     setState_seq body fuel calls s = Some (Normal tt s))
  ∧ (∀ partial replace next s1,
       nextState_of (call_fn body fuel) partial s = Some (Normal next s1) →
       next ≠ state s1 →
       store_setState body fuel partial replace s
       = notify (call_fn body fuel) fuel (state s1) (assign_state replace next s1)).
Proof.
  split.
  - induction calls as [|[partial replace] rest IH]; intros Hall; [done|].
    apply Forall_cons in Hall as [Hc Hrest]. simpl in *.
    unfold store_setState. rewrite (setState_ignores _ _ _ _ _ _ Hc). auto.
  - intros partial replace next s1 Hn Hne. by apply setState_accepts.
Qed.

(** Three calls with the current snapshot (as a value, with the replace
    flag, through [(s) => s]) leave [{a: 1}] and the trace alone; the twin
    object with the same fields is accepted and the listener is called. *)
Lemma setState_identity_is_noop_witness :
  setState_seq identity_fn 2
    [(VObj 0, None); (VObj 0, Some true); (VFun 3, Some false)] store_twins
  = Some (Normal tt store_twins)
  ∧ ∃ s', store_setState identity_fn 2 (VObj 1) None store_twins = Some (Normal tt s')
      ∧ notifications (trace s') = [(7, VObj 2, VObj 0)].
Proof.
  destruct (setState_identity_is_noop identity_fn 2 store_twins) as [Hseq Hacc].
  split.
  - apply Hseq. repeat constructor.
  - rewrite (Hacc (VObj 1) None (VObj 1) store_twins eq_refl); [|discriminate].
    eexists. split; reflexivity.
Defined.

(** C3. The store holds the number [3]; [setState(5, false)] does not make
    [5] the snapshot: the flag given as [false] is taken as it is, the
    candidate goes through [Object.assign({}, 3, 5)], and the snapshot is
    a new object without fields. *)
Theorem setState_false_flag_merges_primitive :
  ∃ s', store_setState idle 1 (VNum 5) (Some false) store_three = Some (Normal tt s')
    ∧ getState s' = VObj 0
    ∧ getState s' ≠ VNum 5
    ∧ own_props (heap_of s') (getState s') = ∅.
Proof. eexists. split; [reflexivity|]. by repeat split. Qed.

(** With the flag [true], or with the flag left out and a candidate that is
    not an object (or is [null]), the new snapshot is the candidate. *)
Lemma setState_takes_candidate call n partial replace s next s1 :
  nextState_of call partial s = Some (Normal next s1) → next ≠ state s1 →
  replace = Some true ∨ (replace = None ∧ (typeof next ≠ TObject ∨ next = VNull)) →
  setState call n partial replace s = notify call n (state s1) (set_state next s1).
Proof.
  intros Hn Hne Hr. rewrite (setState_accepts _ _ _ _ _ _ _ Hn Hne).
  rewrite assign_state_replaces; [done|].
  destruct Hr as [->|[-> [Ht| ->]]]; simpl; [done| |done].
  by rewrite bool_decide_eq_false_2.
Qed.

(** ** Nothing that exists is written to *)

Lemma subscribes_only_any {A} (p : prog A) : subscribes_only (λ _, True) p.
Proof. induction p; simpl; auto. Qed.

Lemma Object_assign_last sources : ∀ (h : heap) x,
  ∃ y, Object_assign (length h) sources (h ++ [x]) = h ++ [y].
Proof.
  unfold Object_assign.
  induction sources as [|src rest IH]; intros h x; simpl; [by exists x|].
  unfold assign_from at 2. rewrite alter_last. apply IH.
Qed.

Lemma assign_state_heap replace next s :
  heap_of s `prefix_of` heap_of (assign_state replace next s).
Proof.
  unfold assign_state, alloc. destruct (replaces replace next); [done|].
  unfold set_state, set_heap. cbn [heap_of].
  destruct (Object_assign_last [state s; next] (heap_of s) ∅) as [y ->].
  by apply prefix_app_r.
Qed.

Lemma assign_state_initialState replace next s :
  initialState (assign_state replace next s) = initialState s.
Proof. unfold assign_state, alloc. by destruct (replaces replace next). Qed.

Lemma assign_state_listeners replace next s :
  listeners (assign_state replace next s) = listeners s.
Proof. unfold assign_state, alloc. by destruct (replaces replace next). Qed.

Lemma assign_state_trace replace next s :
  trace (assign_state replace next s) = trace s.
Proof. unfold assign_state, alloc. by destruct (replaces replace next). Qed.

Lemma frame_lookup s s' l o :
  frame s s' → heap_of s !! l = Some o → heap_of s' !! l = Some o.
Proof. intros [_ [extra ->]] Hl. by apply lookup_app_l_Some. Qed.

Ltac frame_step :=
  intros; split; simpl;
  first [ done | by apply prefix_app_r
        | apply assign_state_initialState | apply assign_state_heap ].

Section Frame.
Variable body : fid → list value → prog value.

Lemma frame_refl s : frame s s.
Proof. by split. Qed.

Lemma frame_trans s1 s2 s3 : frame s1 s2 → frame s2 s3 → frame s1 s3.
Proof. intros [? ?] [? ?]. split; [congruence|by etrans]. Qed.

Lemma store_setState_frame fuel partial replace s r :
  store_setState body fuel partial replace s = Some r → frame s (store_of r).
Proof.
  apply (store_setState_keeps body (λ _, True) frame
           (λ _ _, subscribes_only_any _) frame_refl frame_trans).
  all: frame_step.
Qed.

Lemma setState_seq_frame fuel calls s r :
  setState_seq body fuel calls s = Some r → frame s (store_of r).
Proof.
  apply (setState_seq_keeps body (λ _, True) frame
           (λ _ _, subscribes_only_any _) frame_refl frame_trans).
  all: frame_step.
Qed.

Lemma exec_frame fuel {A} (p : prog A) s r :
  exec body fuel p s = Some r → frame s (store_of r).
Proof.
  apply (exec_keeps body (λ _, True) frame
           (λ _ _, subscribes_only_any _) frame_refl frame_trans);
    [frame_step..|apply subscribes_only_any].
Qed.

Lemma notify_frame fuel n previous s r :
  notify (call_fn body fuel) n previous s = Some r → frame s (store_of r).
Proof.
  apply (notify_keeps frame frame_refl frame_trans).
  - frame_step.
  - apply (call_fn_keeps body (λ _, True) frame
           (λ _ _, subscribes_only_any _) frame_refl frame_trans).
    all: frame_step.
Qed.
End Frame.

(** ** The initial snapshot and fresh snapshots *)

(** C4. After construction, whatever sequence of [setState] calls is made
    and however it ends, and more generally whatever user code is run
    against the store, [getInitialState()] returns the value the
    initializer returned, and every object that existed when construction
    ended, the initial snapshot and all it refers to, has the fields it
    had. *)
Theorem initial_state_never_changes body fuel createState h handle s0 :
  createStoreImpl body fuel createState h = Some (Normal handle s0) →
  ∃ v s1,
    exec body fuel (createState (api_setState api) (api_getState api) api)
         (fresh_store h) = Some (Normal v s1)
    ∧ getInitialState s0 = Normal v s0
    ∧ (∀ fuel' calls r,
         setState_seq body fuel' calls s0 = Some r → initial_kept v s0 (store_of r))
    ∧ (∀ fuel' A (p : prog A) r,
         exec body fuel' p s0 = Some r → initial_kept v s0 (store_of r)).
Proof.
  unfold createStoreImpl. intros Hc.
  destruct (exec body fuel _ (fresh_store h)) as [[v s1|e s1]|] eqn:He; try discriminate.
  injection Hc as <- <-. exists v, s1. split; [done|]. split; [done|].
  assert (∀ s', frame (set_initialState v (set_state v s1)) s' →
                initial_kept v (set_initialState v (set_state v s1)) s') as Hkept.
  { intros s' Hf. pose proof Hf as [Hi Hp]. unfold initial_kept, getInitialState.
    rewrite Hi. split; [done|]. split.
    - intros l o. apply (frame_lookup _ _ _ _ Hf).
    - intros w Hw. by apply (own_props_prefix _ _ _ Hw Hp). }
  split.
  - intros fuel' calls r Hseq. by apply Hkept, (setState_seq_frame body fuel' calls).
  - intros fuel' A p r Hexec. by apply Hkept, (exec_frame body fuel' p).
Qed.

(** The counter is constructed, its state is replaced twice; the initial
    snapshot is still [{count: 0}] at address 0. *)
Lemma initial_state_never_changes_witness :
  ∃ s0 r,
    createStoreImpl counter_fns 1 counter_init [] = Some (Normal api s0)
    ∧ setState_seq counter_fns 2 [(VFun 0, None); (VNum 7, Some true)] s0 = Some r
    ∧ getState (store_of r) = VNum 7
    ∧ getInitialState (store_of r) = Normal (VObj 0) (store_of r)
    ∧ own_props (heap_of (store_of r)) (VObj 0) = {[ "count" := VNum 0 ]}.
Proof.
  eexists _, _. split; [reflexivity|]. split; [reflexivity|]. split; [reflexivity|].
  destruct (initial_state_never_changes counter_fns 1 counter_init [] api _ eq_refl)
    as (v & s1 & He & _ & Hseq & _).
  injection He as <- <-.
  destruct (Hseq 2 [(VFun 0, None); (VNum 7, Some true)] _ eq_refl) as (Hi & _ & Hown).
  split; [exact Hi|].
  rewrite (Hown (VObj 0)); [reflexivity|]. simpl. lia.
Defined.

(** C10. An accepted update that merges (an object candidate, the flag
    not [true]) installs an object that did not exist before: it is
    neither the previous snapshot nor the candidate, every object that
    existed keeps its fields at that moment, and still does when
    [setState] has finished with the listeners, as does the
    initial-snapshot cell.  The update allocates this one object, which
    exists from then on and has the same fields when [setState] has
    finished.  Its fields are copies: when neither the candidate nor the
    previous snapshot has an own property named [__proto__], they are the
    candidate's fields and those of the previous snapshot that the
    candidate lacks; merged into a previous snapshot without properties,
    they are the candidate's. *)
Theorem merge_allocates_fresh_snapshot body fuel partial replace s lc s1 :
  nextState_of (call_fn body fuel) partial s = Some (Normal (VObj lc) s1) →
  VObj lc ≠ state s1 → replace ≠ Some true →
  valid (heap_of s1) (VObj lc) → valid (heap_of s1) (state s1) →
  ∃ l s2,
    store_setState body fuel partial replace s
    = notify (call_fn body fuel) fuel (state s1) s2
    ∧ getState s2 = VObj l
    ∧ heap_of s1 !! l = None
    ∧ VObj l ≠ state s1 ∧ l ≠ lc
    ∧ (∀ l' o, heap_of s1 !! l' = Some o → heap_of s2 !! l' = Some o)
    ∧ (∀ r, store_setState body fuel partial replace s = Some r →
            frame s1 (store_of r))
    ∧ length (heap_of s2) = S (length (heap_of s1))
    ∧ is_Some (heap_of s2 !! l)
    ∧ (∀ r, store_setState body fuel partial replace s = Some r →
            heap_of (store_of r) !! l = heap_of s2 !! l)
    ∧ (∀ oc, heap_of s1 !! lc = Some oc → oc !! "__proto__" = None →
         (∀ l0 o0, state s1 = VObj l0 → heap_of s1 !! l0 = Some o0 →
            o0 !! "__proto__" = None →
            ∃ o, heap_of s2 !! l = Some o ∧ o = oc ∪ o0
              ∧ ∀ k, o !! k = match oc !! k with
                              | Some v => Some v
                              | None => o0 !! k
                              end)
         ∧ ((∀ l0, state s1 ≠ VObj l0) → plain (heap_of s1) (state s1) →
            heap_of s2 !! l = Some oc)).
Proof.
  intros Hn Hne Hr Hvc Hvs.
  assert (replaces replace (VObj lc) = false) as Hrep.
  { destruct replace as [[|]|]; simpl; [congruence|done|done]. }
  exists (length (heap_of s1)), (assign_state replace (VObj lc) s1).
  unfold store_setState. rewrite (setState_accepts _ _ _ _ _ _ _ Hn Hne).
  split; [done|].
  pose proof (assign_state_heap replace (VObj lc) s1) as Hp.
  pose proof (assign_state_initialState replace (VObj lc) s1) as Hi.
  rewrite (assign_state_merges _ _ _ Hrep Hvc) in *.
  split; [done|]. split; [by apply lookup_ge_None_2|].
  split. { intros Heq. rewrite <- Heq in Hvs. simpl in Hvs. lia. }
  split. { simpl in Hvc. lia. }
  split. { intros l' o Hl. simpl. by apply lookup_app_l_Some. }
  split.
  { intros r Hnot. apply notify_frame in Hnot.
    eapply frame_trans; [|exact Hnot]. by split. }
  split. { simpl. rewrite length_app. simpl. lia. }
  split. { simpl. rewrite list_lookup_middle by done. by eexists. }
  split.
  { intros r Hnot. apply notify_frame in Hnot.
    simpl. rewrite list_lookup_middle by done.
    apply (frame_lookup _ _ _ _ Hnot). simpl. by rewrite list_lookup_middle. }
  intros oc Hc Hpc. simpl. rewrite list_lookup_middle by done.
  assert (plain (heap_of s1) (VObj lc)) as Hplc by (intros o Ho; congruence).
  assert (own_props (heap_of s1) (VObj lc) = oc) as Hoc by (simpl; by rewrite Hc).
  split.
  - intros l0 o0 Hst H0 Hp0.
    assert (plain (heap_of s1) (state s1)) as Hpl0.
    { rewrite Hst. intros o Ho. congruence. }
    rewrite !written_plain by done. rewrite Hoc, Hst. simpl. rewrite H0. simpl.
    eexists. split; [done|]. split; [done|]. intros k. apply lookup_merge.
  - intros Hno Hpl0. rewrite !written_plain by done. rewrite Hoc.
    destruct (state s1) as [| | | | |l0|]; simpl in *; try done;
      try (by rewrite (right_id_L ∅ (∪))).
    by destruct (Hno l0).
Qed.

(** On [{a: 0, b: 2}] at address 0 with the candidate [{a: 1}] at address
    1: the new snapshot is the new object at address 2, with the fields
    [{a: 1, b: 2}]; the two others are as they were. *)
Lemma merge_allocates_fresh_snapshot_witness :
  ∃ s', store_setState idle 2 (VObj 1) None store_ab = Some (Normal tt s')
    ∧ getState s' = VObj 2
    ∧ heap_of s' !! 0 = Some {[ "a" := VNum 0; "b" := VNum 2 ]}
    ∧ heap_of s' !! 1 = Some {[ "a" := VNum 1 ]}
    ∧ heap_of s' !! 2 = Some {[ "a" := VNum 1; "b" := VNum 2 ]}
    ∧ length (heap_of s') = 3.
Proof.
  destruct (merge_allocates_fresh_snapshot idle 2 (VObj 1) None store_ab 1 store_ab)
    as (l & s2 & Hset & Hst & Hnew & _ & _ & _ & Hframe & Hlen & Hsome & Hkeep & Hcopy);
    [reflexivity|discriminate|discriminate|simpl; lia|simpl; lia|].
  eexists. split; [reflexivity|]. split; [reflexivity|].
  specialize (Hframe _ eq_refl). specialize (Hkeep _ eq_refl).
  split; [apply (frame_lookup _ _ _ _ Hframe); reflexivity|].
  split; [apply (frame_lookup _ _ _ _ Hframe); reflexivity|].
  split; [|reflexivity].
  destruct (Hcopy {[ "a" := VNum 1 ]} eq_refl eq_refl) as [Hobj _].
  destruct (Hobj 0 {[ "a" := VNum 0; "b" := VNum 2 ]} eq_refl eq_refl eq_refl)
    as (o & Ho & -> & _).
  assert (l = 2) as ->.
  { apply lookup_ge_None in Hnew. apply lookup_lt_is_Some in Hsome.
    rewrite Hlen in Hsome. simpl in Hnew, Hsome. lia. }
  refine (eq_trans Hkeep (eq_trans Ho _)). by vm_compute.
Defined.

(** ** Construction *)

(** C8. Construction runs [createState(setState, getState, api)] against
    the blank closure state; when that run returns [v], the store is the
    one this single run left, with [v] in both cells: [getState()] and
    [getInitialState()] return [v].  The handle returned is the [api]
    given to the initializer, and its four fields are the four
    operations. *)
Theorem createStoreImpl_seeds_both_cells body fuel createState h v s1 :
  exec body fuel (createState (api_setState api) (api_getState api) api)
       (fresh_store h) = Some (Normal v s1) →
  ∃ s0,
    createStoreImpl body fuel createState h = Some (Normal api s0)
    ∧ getState s0 = v
    ∧ getInitialState s0 = Normal v s0
    ∧ trace s0 = trace s1 ∧ heap_of s0 = heap_of s1 ∧ listeners s0 = listeners s1
    ∧ (∀ n partial replace s,
         exec body n (api_setState api partial replace) s
         = store_setState body n partial replace s)
    ∧ (∀ n s, exec body n (api_getState api) s = Some (Normal (getState s) s))
    ∧ (∀ n s, exec body n (api_getInitialState api) s = Some (getInitialState s))
    ∧ (∀ n f s, ∃ closure,
         exec body n (api_subscribe api f) s = Some (Normal closure (subscribe f s).2)
         ∧ ∀ m s', exec body m closure s' = Some (Normal tt ((subscribe f s).1 s'))).
Proof.
  intros He. unfold createStoreImpl. rewrite He.
  exists (set_initialState v (set_state v s1)).
  repeat split.
  - intros n partial replace s. unfold exec, store_setState. simpl.
    by destruct (setState _ n partial replace s) as [[[] s'|e s']|].
  - intros n s. unfold exec. simpl. unfold getInitialState.
    by destruct (initialState s).
  - intros n f s. eexists. split; [reflexivity|]. reflexivity.
Qed.

(** The counter: one announcement of the initializer in the trace, no
    listener, [{count: 0}] in both cells. *)
Lemma createStoreImpl_seeds_both_cells_witness :
  ∃ s0,
    createStoreImpl counter_fns 1 counter_init [] = Some (Normal api s0)
    ∧ getState s0 = VObj 0
    ∧ getInitialState s0 = Normal (VObj 0) s0
    ∧ trace s0 = [Emitted (VStr "init")]
    ∧ own_props (heap_of s0) (getState s0) = {[ "count" := VNum 0 ]}.
Proof.
  destruct (createStoreImpl_seeds_both_cells counter_fns 1 counter_init [] (VObj 0)
              _ eq_refl) as (s0 & Hc & Hg & Hi & Ht & Hh & _).
  exists s0. split; [exact Hc|]. split; [exact Hg|]. split; [exact Hi|].
  split; [exact Ht|]. rewrite Hh, Hg. reflexivity.
Defined.

(** ** Notification *)

(** With listeners that only observe, [setState] returns; an identical
    candidate leaves the store as it is, any other is assigned and every
    registered listener is invoked once, in registration order, with the
    new and the previous snapshot. *)
Lemma setState_observers body fuel partial replace s next s1 :
  (∀ f args, observer (body f args)) →
  nextState_of (call_fn body fuel) partial s = Some (Normal next s1) →
  length (listeners s1) < fuel →
  ∃ s',
    store_setState body fuel partial replace s = Some (Normal tt s')
    ∧ if decide (next = state s1) then s' = s1
      else getState s' = state (assign_state replace next s1)
           ∧ listeners s' = listeners s1
           ∧ notifications (trace s')
             = notifications (trace s1)
               ++ ((λ f, (f, state (assign_state replace next s1), state s1))
                     <$> registered s1).
Proof.
  intros Hobs Hn Hlen. unfold store_setState.
  destruct (decide (next = state s1)) as [->|Hne].
  - exists s1. by rewrite (setState_ignores _ _ _ _ _ _ Hn).
  - rewrite (setState_accepts _ _ _ _ _ _ _ Hn Hne).
    destruct fuel as [|fuel]; [lia|].
    destruct (notify_observers body Hobs fuel (state s1) (S fuel)
                (assign_state replace next s1))
      as (s' & Hnot & Hst & Hls & _ & Htr & _).
    { by rewrite assign_state_listeners. }
    exists s'. split; [done|]. split; [done|].
    rewrite Hls, Htr, assign_state_listeners, assign_state_trace.
    split; [done|]. unfold registered. by rewrite assign_state_listeners.
Qed.

(** ** The registry *)

Lemma registered_elem f s : f ∈ registered s ↔ Some f ∈ listeners s.
Proof.
  unfold registered. rewrite list_elem_of_omap. split.
  - intros (x & Hx & Hid). unfold id in Hid. by subst x.
  - intros H. by exists (Some f).
Qed.

Lemma omap_Set_add g ls :
  omap id (Set_add g ls) = if Set_has ls g then omap id ls else omap id ls ++ [g].
Proof.
  unfold Set_add. destruct (Set_has ls g); [done|]. by rewrite omap_app.
Qed.

Lemma omap_Set_delete g ls :
  omap id (Set_delete g ls) = filter (λ f, f ≠ g) (omap id ls).
Proof.
  unfold Set_delete. induction ls as [|[f|] ls IH]; csimpl; [done| |done].
  destruct (decide (Some f = Some g)) as [[= ->]|Hne]; csimpl.
  - rewrite filter_cons_False by (by intros ?). exact IH.
  - rewrite filter_cons_True by congruence. by rewrite IH.
Qed.

Lemma registered_subscribe f g s :
  f ∈ registered (subscribe g s).2 ↔ f = g ∨ f ∈ registered s.
Proof.
  unfold registered. simpl. rewrite omap_Set_add.
  destruct (Set_has (listeners s) g) eqn:Hhas.
  - apply bool_decide_eq_true_1 in Hhas. apply registered_elem in Hhas.
    unfold registered in Hhas. split; [by right|]. by intros [->|?].
  - rewrite elem_of_app, list_elem_of_singleton. tauto.
Qed.

Lemma registered_unsubscribe g s :
  registered (unsubscribe g s) = filter (λ f, f ≠ g) (registered s).
Proof. unfold registered. simpl. apply omap_Set_delete. Qed.

Lemma unsubscribe_absent g s : g ∉ registered s → unsubscribe g s = s.
Proof.
  rewrite registered_elem. intros Hg. destruct s as [h st ini ls t].
  unfold unsubscribe, set_listeners. simpl in *. f_equal.
  unfold Set_delete. induction ls as [|e ls IH]; csimpl; [done|].
  apply not_elem_of_cons in Hg as [Hne Hg].
  rewrite decide_False by done. by rewrite IH.
Qed.

Lemma notified_app f t1 t2 : notified f (t1 ++ t2) = notified f t1 ++ notified f t2.
Proof. unfold notified. by rewrite notifications_app, filter_app. Qed.

Section Silent.
Variable body : fid → list value → prog value.
Variable f : fid.
Hypothesis never_subscribed : ∀ g args, subscribes_only (λ g', g' ≠ f) (body g args).

Lemma silent_refl s : silent f s s.
Proof. by intros ?. Qed.

Lemma silent_trans s1 s2 s3 : silent f s1 s2 → silent f s2 s3 → silent f s1 s3.
Proof.
  intros H12 H23 H1. destruct (H12 H1) as [H2 Ht]. destruct (H23 H2) as [H3 Ht'].
  split; [done|congruence].
Qed.

Lemma silent_emit s v : silent f s (log (Emitted v) s).
Proof.
  intros Hf. split; [done|]. simpl. rewrite notified_app.
  by rewrite app_nil_r.
Qed.

Lemma silent_notify s g previous :
  Some g ∈ listeners s → silent f s (log (Notified g (state s) previous) s).
Proof.
  intros Hg Hf. split; [done|]. simpl. rewrite notified_app.
  unfold notified at 2. simpl. rewrite filter_cons_False, filter_nil.
  - by rewrite app_nil_r.
  - simpl. intros ->. by apply Hf, registered_elem.
Qed.

Lemma silent_alloc s o : silent f s (set_heap (heap_of s ++ [o]) s).
Proof. by intros ?. Qed.

Lemma silent_assign s replace v : silent f s (assign_state replace v s).
Proof.
  intros Hf. unfold registered. by rewrite assign_state_listeners, assign_state_trace.
Qed.

Lemma silent_subscribe s g : g ≠ f → silent f s (subscribe g s).2.
Proof.
  intros Hne Hf. split; [|done]. rewrite registered_subscribe.
  intros [Heq|Hin]; [by apply Hne|by apply Hf].
Qed.

Lemma silent_unsubscribe s g : silent f s (unsubscribe g s).
Proof.
  intros Hf. split; [|done]. rewrite registered_unsubscribe, list_elem_of_filter.
  intros [_ Hin]. by apply Hf.
Qed.

Lemma setState_seq_silent fuel calls s r :
  setState_seq body fuel calls s = Some r → silent f s (store_of r).
Proof.
  apply (setState_seq_keeps body (λ g', g' ≠ f) (silent f) never_subscribed
           silent_refl silent_trans silent_emit silent_notify silent_alloc
           silent_assign silent_subscribe silent_unsubscribe).
Qed.
End Silent.

Lemma nextState_of_observers body fuel partial s next s1 :
  (∀ f args, observer (body f args)) →
  nextState_of (call_fn body fuel) partial s = Some (Normal next s1) →
  listeners s1 = listeners s ∧ state s1 = state s.
Proof.
  intros Hobs Hn.
  destruct partial; simpl in Hn; try (injection Hn as <- <-; done).
  destruct fuel as [|fuel]; [done|].
  destruct (call_observer body Hobs fuel f [state s] s) as (a & s' & Hc & ? & ? & _).
  rewrite Hc in Hn. by injection Hn as <- <-.
Qed.

(** C6. [subscribe(listener)] registers the listener and returns the
    closure that deletes it.  Whenever the closure is called, that listener
    is out of the registry and the others are in it exactly as before;
    calling it again, or at any time the listener is not registered, gives
    the same store.  If no function subscribes the
    listener again, no later sequence of mutations invokes it; and with
    listeners that only observe, an accepted mutation still invokes
    every other registered listener. *)
Theorem unsubscribe_removes_exactly_that_listener body f s :
  f ∈ registered (subscribe f s).2
  ∧ ∀ s', let s'' := (subscribe f s).1 s' in
      (f ∉ registered s'')
      ∧ (∀ g, g ≠ f → g ∈ registered s'' ↔ g ∈ registered s')
      ∧ (subscribe f s).1 s'' = s''
      ∧ (∀ s3, f ∉ registered s3 → (subscribe f s).1 s3 = s3)
      ∧ ((∀ g args, subscribes_only (λ g', g' ≠ f) (body g args)) →
         ∀ fuel calls r,
           setState_seq body fuel calls s'' = Some r →
           (f ∉ registered (store_of r))
           ∧ notified f (trace (store_of r)) = notified f (trace s'))
      ∧ ((∀ g args, observer (body g args)) →
         ∀ fuel partial replace next s1,
           nextState_of (call_fn body fuel) partial s'' = Some (Normal next s1) →
           next ≠ state s1 → length (listeners s1) < fuel →
           ∃ r, store_setState body fuel partial replace s'' = Some (Normal tt r)
             ∧ ∀ g, g ≠ f → g ∈ registered s' →
                 (g, getState r, state s1) ∈ notifications (trace r)).
Proof.
  split; [apply registered_subscribe; by left|].
  intros s' s''. subst s''. simpl.
  assert (f ∉ registered (unsubscribe f s')) as Hout.
  { rewrite registered_unsubscribe, list_elem_of_filter. by intros [? _]. }
  assert (∀ g, g ≠ f → g ∈ registered (unsubscribe f s') ↔ g ∈ registered s') as Hothers.
  { intros g Hg. rewrite registered_unsubscribe, list_elem_of_filter. tauto. }
  split; [exact Hout|]. split; [exact Hothers|].
  split; [by apply unsubscribe_absent|].
  split; [intros s3; apply unsubscribe_absent|]. split.
  - intros Hsub fuel calls r Hseq.
    apply (setState_seq_silent body f Hsub) in Hseq. exact (Hseq Hout).
  - intros Hobs fuel partial replace next s1 Hn Hne Hlen.
    destruct (setState_observers body fuel partial replace _ next s1 Hobs Hn Hlen)
      as (r & Hset & Hcase).
    exists r. split; [exact Hset|]. rewrite decide_False in Hcase by done.
    destruct Hcase as (Hst & _ & Htr). intros g Hg Hin.
    rewrite Htr, Hst. apply elem_of_app. right.
    apply (list_elem_of_fmap_2 (λ f, (f, _, _))).
    destruct (nextState_of_observers body fuel partial _ next s1 Hobs Hn) as [Hls _].
    unfold registered. rewrite Hls. by apply Hothers.
Qed.

(** Listener 2 is unsubscribed from [1; 2; 3]: the next update invokes 1
    and 3, and the second call of the closure changes nothing. *)
Lemma unsubscribe_removes_exactly_that_listener_witness :
  registered ((subscribe 2 store_123).1 store_123) = [1; 3]
  ∧ (subscribe 2 store_123).1 ((subscribe 2 store_123).1 store_123)
    = (subscribe 2 store_123).1 store_123
  ∧ ∃ r, setState_seq idle 4 [(VObj 1, None); (VObj 2, None)]
           ((subscribe 2 store_123).1 store_123) = Some r
      ∧ notified 2 (trace (store_of r)) = []
      ∧ notifications (trace (store_of r))
        = [(1, VObj 3, VObj 0); (3, VObj 3, VObj 0);
           (1, VObj 4, VObj 3); (3, VObj 4, VObj 3)].
Proof.
  destruct (unsubscribe_removes_exactly_that_listener idle 2 store_123)
    as [_ H]. destruct (H store_123) as (_ & _ & Hagain & _ & Hnever & _).
  split; [reflexivity|]. split; [exact Hagain|].
  eexists. split; [reflexivity|].
  split; [|reflexivity].
  destruct (Hnever (λ _ _, I) 4 [(VObj 1, None); (VObj 2, None)] _ eq_refl) as [_ ->].
  reflexivity.
Defined.

(** ** Changing the registry during a notification pass *)

Section Grows.
Variable body : fid → list value → prog value.

Lemma grows_refl s : grows s s.
Proof. split; [exists []; by rewrite app_nil_r|]. split; [lia|auto]. Qed.

Lemma grows_trans s1 s2 s3 : grows s1 s2 → grows s2 s3 → grows s1 s3.
Proof.
  intros ([n1 H1] & Hl1 & He1) ([n2 H2] & Hl2 & He2).
  split; [exists (n1 ++ n2); by rewrite H2, H1, app_assoc|].
  split; [lia|]. intros j f Hj H3. apply He1; [done|]. apply He2; [lia|done].
Qed.

Lemma grows_log s e : grows s (log e s).
Proof. split; [by exists [e]|]. split; [simpl; lia|auto]. Qed.

Lemma grows_alloc s o : grows s (set_heap (heap_of s ++ [o]) s).
Proof. split; [exists []; simpl; by rewrite app_nil_r|]. split; [simpl; lia|auto]. Qed.

Lemma grows_assign s replace v : grows s (assign_state replace v s).
Proof.
  unfold grows. rewrite assign_state_trace, assign_state_listeners.
  split; [exists []; by rewrite app_nil_r|]. split; [lia|auto].
Qed.

Lemma grows_subscribe s g : grows s (subscribe g s).2.
Proof.
  split; [exists []; simpl; by rewrite app_nil_r|]. simpl. unfold Set_add.
  destruct (Set_has (listeners s) g); [split; [lia|auto]|].
  split; [rewrite length_app; lia|].
  intros j f Hj. by rewrite lookup_app_l.
Qed.

Lemma grows_unsubscribe s g : grows s (unsubscribe g s).
Proof.
  split; [exists []; simpl; by rewrite app_nil_r|]. simpl. unfold Set_delete.
  split; [by rewrite length_fmap|].
  intros j f Hj. rewrite list_lookup_fmap.
  destruct (listeners s !! j) as [e|]; simpl; [|done].
  by destruct (decide (e = Some g)).
Qed.

Lemma call_fn_grows fuel : call_keeps grows (call_fn body fuel).
Proof.
  apply (call_fn_keeps body (λ _, True) grows (λ _ _, subscribes_only_any _)
           grows_refl grows_trans).
  - intros; apply grows_log.
  - intros; apply grows_log.
  - apply grows_alloc.
  - apply grows_assign.
  - intros; apply grows_subscribe.
  - apply grows_unsubscribe.
Qed.

(** A pass that has come to its end has invoked every listener that is
    registered at that moment: none is skipped because others were
    removed or added on the way. *)
Lemma forEach_visits call previous t0 n : ∀ i s s',
  call_keeps grows call →
  (∃ new, trace s = t0 ++ new
     ∧ ∀ j f, j < i → listeners s !! j = Some (Some f) →
              ∃ next, Notified f next previous ∈ new) →
  forEach n i (notify_one call previous) s = Some (Normal tt s') →
  ∃ new, trace s' = t0 ++ new
    ∧ ∀ f, f ∈ registered s' → ∃ next, Notified f next previous ∈ new.
Proof.
  induction n as [|n IH]; intros i s s' Hcall (new & Ht & Hinv); [done|].
  cbn [forEach]. destruct (listeners s !! i) as [[g|]|] eqn:Hi.
  - destruct (notify_one call previous g s) as [[v s1|e s1]|] eqn:Hcb; try done.
    apply IH; [done|].
    unfold notify_one in Hcb. apply Hcall in Hcb. simpl in Hcb.
    destruct Hcb as ([new' Ht'] & Hlen & Hent). simpl in *.
    exists (new ++ [Notified g (state s) previous] ++ new').
    split; [rewrite Ht', Ht; by rewrite <- !app_assoc|].
    intros j f Hj Hjf.
    pose proof (lookup_lt_Some _ _ _ Hi) as Hlt.
    apply Hent in Hjf; [|lia].
    destruct (decide (j = i)) as [->|Hne].
    + exists (state s). rewrite Hi in Hjf. injection Hjf as <-.
      rewrite elem_of_app. right. by left.
    + destruct (Hinv j f) as [next Hnext]; [lia|done|].
      exists next. rewrite elem_of_app. by left.
  - apply IH; [done|]. exists new. split; [done|].
    intros j f Hj Hjf. destruct (decide (j = i)) as [->|Hne]; [congruence|].
    apply (Hinv j f); [lia|done].
  - intros [= <-]. exists new. split; [done|].
    intros f Hf. apply registered_elem, list_elem_of_lookup_1 in Hf as [j Hj].
    apply (Hinv j f); [|done].
    apply lookup_ge_None_1 in Hi. apply lookup_lt_Some in Hj. lia.
Qed.

Lemma notify_visits fuel n previous s s' :
  notify (call_fn body fuel) n previous s = Some (Normal tt s') →
  ∃ new, trace s' = trace s ++ new
    ∧ ∀ f, f ∈ registered s' → ∃ next, Notified f next previous ∈ new.
Proof.
  apply forEach_visits; [apply call_fn_grows|].
  exists []. split; [by rewrite app_nil_r|]. intros j f Hj. lia.
Qed.
End Grows.

(** User code that only looks and changes the registry returns.  If it
    subscribes listeners of [univ] only and unsubscribes none of them, the
    registry stays bounded. *)
Lemma bounded_registry_length len0 univ s :
  bounded_registry len0 univ s → length (listeners s) ≤ len0 + length univ.
Proof.
  intros (Hlen & extra & Hdrop & Hnd & Hsub).
  assert (length extra ≤ length univ) as Hle.
  { apply submseteq_length, NoDup_submseteq; done. }
  assert (length (drop len0 (listeners s)) = length extra) as Hd.
  { by rewrite Hdrop, length_fmap. }
  rewrite length_drop in Hd. lia.
Qed.

Lemma bounded_registry_subscribe len0 univ g s :
  g ∈ univ → bounded_registry len0 univ s →
  bounded_registry len0 univ (subscribe g s).2.
Proof.
  intros Hg (Hlen & extra & Hdrop & Hnd & Hsub).
  unfold bounded_registry. simpl. unfold Set_add.
  destruct (Set_has (listeners s) g) eqn:Hhas.
  - split; [done|]. by exists extra.
  - apply bool_decide_eq_false_1 in Hhas.
    split; [rewrite length_app; lia|]. exists (extra ++ [g]).
    split; [rewrite drop_app_le by done; by rewrite Hdrop, fmap_app|].
    split.
    + apply NoDup_app. split; [done|]. split; [|apply NoDup_singleton].
      intros x Hx ->%list_elem_of_singleton. apply Hhas.
      rewrite <- (take_drop len0 (listeners s)), Hdrop.
      apply elem_of_app. right. by apply list_elem_of_fmap_2.
    + intros x [Hx| ->%list_elem_of_singleton]%elem_of_app; auto.
Qed.

Lemma bounded_registry_unsubscribe len0 univ g s :
  g ∉ univ → bounded_registry len0 univ s →
  bounded_registry len0 univ (unsubscribe g s).
Proof.
  intros Hg (Hlen & extra & Hdrop & Hnd & Hsub).
  unfold bounded_registry. simpl. unfold Set_delete.
  split; [by rewrite length_fmap|]. exists extra.
  split; [|done]. rewrite <- fmap_drop, Hdrop, <- list_fmap_compose.
  apply list_fmap_ext. intros i x Hx. simpl.
  rewrite decide_False; [done|]. intros [= ->].
  apply Hg, Hsub. by eapply list_elem_of_lookup_2.
Qed.

Lemma run_registry_only {A} (p : prog A) : ∀ s,
  registry_only p →
  ∃ a s', (∀ call n, run call n p s = Some (Normal a s'))
    ∧ ∀ len0 univ,
        subscribes_only (λ g, g ∈ univ) p → unsubscribes_only (λ g, g ∉ univ) p →
        bounded_registry len0 univ s → bounded_registry len0 univ s'.
Proof.
  induction p as [a|e|v k IH|o k IH|l k IH|pa rp k IH|k IH|k IH|f k IH|f k IH];
    intros s Hreg; simpl in Hreg; try done.
  - exists a, s. by split.
  - destruct (IH (log (Emitted v) s) Hreg) as (a & s' & Hrun & Hb).
    exists a, s'. split; [done|]. intros len0 univ Hs Hu. by apply Hb.
  - destruct (IH (length (heap_of s)) (set_heap (heap_of s ++ [o]) s) (Hreg _))
      as (a & s' & Hrun & Hb).
    exists a, s'. split; [done|]. intros len0 univ Hs Hu. apply Hb; [apply Hs|apply Hu].
  - destruct (IH _ s (Hreg (default ∅ (heap_of s !! l)))) as (a & s' & Hrun & Hb).
    exists a, s'. split; [done|]. intros len0 univ Hs Hu. apply Hb; [apply Hs|apply Hu].
  - destruct (IH _ s (Hreg (getState s))) as (a & s' & Hrun & Hb).
    exists a, s'. split; [done|]. intros len0 univ Hs Hu. apply Hb; [apply Hs|apply Hu].
  - destruct (IH (subscribe f s).2 Hreg) as (a & s' & Hrun & Hb).
    exists a, s'. split; [done|]. intros len0 univ [Hf Hs] Hu Hbd.
    apply Hb; [done|done|]. by apply bounded_registry_subscribe.
  - destruct (IH (unsubscribe f s) Hreg) as (a & s' & Hrun & Hb).
    exists a, s'. split; [done|]. intros len0 univ Hs [Hf Hu] Hbd.
    apply Hb; [done|done|]. by apply bounded_registry_unsubscribe.
Qed.

Section Registry.
Variable body : fid → list value → prog value.
Hypothesis registry : ∀ f args, registry_only (body f args).

Lemma call_registry_only fuel f args s :
  ∃ a s', call_fn body (S fuel) f args s = Some (Normal a s')
    ∧ ∀ len0 univ,
        (∀ g args', subscribes_only (λ g', g' ∈ univ) (body g args')) →
        (∀ g args', unsubscribes_only (λ g', g' ∉ univ) (body g args')) →
        bounded_registry len0 univ s → bounded_registry len0 univ s'.
Proof.
  destruct (run_registry_only (body f args) s (registry _ _)) as (a & s' & Hrun & Hb).
  exists a, s'. split; [apply Hrun|]. intros len0 univ Hs Hu. apply Hb; auto.
Qed.

Lemma call_never_throws fuel f args s e s' :
  call_fn body fuel f args s ≠ Some (Threw e s').
Proof.
  destruct fuel as [|fuel]; [done|].
  destruct (call_registry_only fuel f args s) as (a & s1 & -> & _). done.
Qed.

Lemma forEach_never_throws fuel previous n : ∀ i s e s',
  forEach n i (notify_one (call_fn body fuel) previous) s ≠ Some (Threw e s').
Proof.
  induction n as [|n IH]; intros i s e s'; [done|]. cbn [forEach].
  destruct (listeners s !! i) as [[g|]|]; [|apply IH|done].
  destruct (notify_one (call_fn body fuel) previous g s) as [[v s1|e1 s1]|] eqn:Hcb;
    [apply IH| |done].
  unfold notify_one in Hcb. by apply call_never_throws in Hcb.
Qed.

(** The pass comes to its end when the listeners subscribe within a
    finite set and unsubscribe outside of it. *)
Lemma forEach_returns fuel previous len0 univ n : ∀ i s,
  (∀ g args, subscribes_only (λ g', g' ∈ univ) (body g args)) →
  (∀ g args, unsubscribes_only (λ g', g' ∉ univ) (body g args)) →
  bounded_registry len0 univ s →
  len0 + length univ - i < n →
  ∃ s', forEach n i (notify_one (call_fn body (S fuel)) previous) s
        = Some (Normal tt s').
Proof.
  induction n as [|n IH]; intros i s Hsub Hunsub Hbd Hlen; [lia|]. cbn [forEach].
  pose proof (bounded_registry_length _ _ _ Hbd) as Hmax.
  destruct (listeners s !! i) as [[g|]|] eqn:Hi.
  - pose proof (lookup_lt_Some _ _ _ Hi) as Hlt. unfold notify_one at 1.
    destruct (call_registry_only fuel g [state s; previous]
                (log (Notified g (state s) previous) s)) as (a & s1 & -> & Hb).
    apply IH; [done|done| |lia]. by apply Hb.
  - pose proof (lookup_lt_Some _ _ _ Hi) as Hlt. apply IH; [done|done|done|lia].
  - by exists s.
Qed.
End Registry.

(** C7. Listeners that, while they are notified, unsubscribe themselves or
    others and subscribe listeners: [setState] never throws; a pass that
    has ended has invoked every listener registered at its end, none is
    lost; a listener that is out of the registry after the pass is not
    invoked by any later mutation, as long as nobody subscribes it again;
    and the pass does end when the listeners subscribed on the way come
    from a finite set of which none is unsubscribed. *)
Theorem notification_tolerates_registry_changes body fuel partial replace s :
  (∀ f args, registry_only (body f args)) →
  (∀ e s', store_setState body fuel partial replace s ≠ Some (Threw e s'))
  ∧ (∀ next s1 s',
       nextState_of (call_fn body fuel) partial s = Some (Normal next s1) →
       next ≠ state s1 →
       store_setState body fuel partial replace s = Some (Normal tt s') →
       ∃ new, trace s' = trace s1 ++ new
         ∧ ∀ f, f ∈ registered s' → ∃ nx, Notified f nx (state s1) ∈ new)
  ∧ (∀ r f,
       store_setState body fuel partial replace s = Some r →
       f ∉ registered (store_of r) →
       (∀ g args, subscribes_only (λ g', g' ≠ f) (body g args)) →
       ∀ fuel' calls r',
         setState_seq body fuel' calls (store_of r) = Some r' →
         (f ∉ registered (store_of r'))
         ∧ notified f (trace (store_of r')) = notified f (trace (store_of r)))
  ∧ (∀ univ next s1,
       (∀ g args, subscribes_only (λ g', g' ∈ univ) (body g args)) →
       (∀ g args, unsubscribes_only (λ g', g' ∉ univ) (body g args)) →
       nextState_of (call_fn body fuel) partial s = Some (Normal next s1) →
       length (listeners s1) + length univ < fuel →
       ∃ s', store_setState body fuel partial replace s = Some (Normal tt s')).
Proof.
  intros Hreg. unfold store_setState. split; [|split; [|split]].
  - intros e s'. unfold setState.
    destruct (nextState_of (call_fn body fuel) partial s) as [[next s1|e1 s1]|] eqn:Hn;
      [| |done].
    + destruct (negb (Object_is next (state s1))); [|done].
      apply (forEach_never_throws body Hreg).
    + destruct partial; simpl in Hn; try done.
      by apply (call_never_throws body Hreg) in Hn.
  - intros next s1 s' Hn Hne. rewrite (setState_accepts _ _ _ _ _ _ _ Hn Hne).
    intros Hnot. apply notify_visits in Hnot. by rewrite assign_state_trace in Hnot.
  - intros r f _ Hout Hsub fuel' calls r' Hseq.
    apply (setState_seq_silent body f Hsub) in Hseq. apply (Hseq Hout).
  - intros univ next s1 Hsub Hunsub Hn Hlen. unfold setState. rewrite Hn.
    destruct (negb (Object_is next (state s1))); [|by exists s1].
    destruct fuel as [|fuel]; [lia|]. unfold notify.
    apply (forEach_returns body Hreg fuel (state s1) (length (listeners s1)) univ);
      [done|done| |lia].
    split; [by rewrite assign_state_listeners|]. exists [].
    rewrite assign_state_listeners, drop_all. split; [done|].
    split; [apply NoDup_nil_2|]. by intros g ?%elem_of_nil.
Qed.

(** Listener 1 unsubscribes itself and listener 2 and subscribes listener
    4 while it is notified: the pass invokes 1, 3 and 4, not 2; the next
    mutation invokes 3 and 4. *)
Lemma notification_tolerates_registry_changes_witness :
  ∃ s' r,
    store_setState meddling 5 (VObj 1) None store_123 = Some (Normal tt s')
    ∧ registered s' = [3; 4]
    ∧ notifications (trace s') = [(1, VObj 3, VObj 0); (3, VObj 3, VObj 0); (4, VObj 3, VObj 0)]
    ∧ setState_seq meddling 5 [(VObj 2, None)] s' = Some r
    ∧ notified 1 (trace (store_of r)) = [(1, VObj 3, VObj 0)]
    ∧ notified 2 (trace (store_of r)) = [].
Proof.
  assert (∀ f args, registry_only (meddling f args)) as Hreg.
  { intros [|[|f]] args; exact I. }
  destruct (notification_tolerates_registry_changes meddling 5 (VObj 1) None
              store_123 Hreg) as (_ & _ & Hlater & Hret).
  destruct (Hret [4] (VObj 1) store_123) as [s' Hs'].
  { intros [|[|g]] args; simpl; auto; repeat split; apply list_elem_of_here. }
  { intros [|[|g]] args; simpl; auto;
    repeat split; intros Hin; apply list_elem_of_singleton in Hin; discriminate. }
  { reflexivity. }
  { simpl. lia. }
  exists s'. eexists. split; [exact Hs'|].
  injection Hs' as <-.
  split; [reflexivity|]. split; [reflexivity|]. split; [reflexivity|].
  split; [reflexivity|].
  refine (proj2 (Hlater _ 2 eq_refl _ _ 5 [(VObj 2, None)] _ eq_refl)).
  - vm_compute. intros Hin.
    repeat (apply elem_of_cons in Hin as [Hin|Hin]; [discriminate|]).
    by apply elem_of_nil in Hin.
  - intros [|[|g]] args; simpl; auto; repeat split; discriminate.
Defined.

(** ** Listeners that behave *)

(** A listener whose code neither calls [setState] nor throws returns,
    whatever the budget, and leaves the snapshot, the initial snapshot and
    the record of invocations as they were; what it does to the registry is
    what its calls of [subscribe] and of unsubscribe closures say. *)
Lemma run_polite {A} (p : prog A) : ∀ s,
  polite (is_Some (initialState s)) p →
  ∃ a s', (∀ call n, run call n p s = Some (Normal a s'))
    ∧ state s' = state s ∧ initialState s' = initialState s
    ∧ notifications (trace s') = notifications (trace s)
    ∧ (∀ L : fid → Prop, subscribes_only L p →
         (∀ f, f ∈ registered s → L f) → ∀ f, f ∈ registered s' → L f)
    ∧ (∀ f j, unsubscribes_only (λ g, g ≠ f) p →
         listeners s !! j = Some (Some f) → listeners s' !! j = Some (Some f))
    ∧ (∀ len0 univ,
         subscribes_only (λ g, g ∈ univ) p → unsubscribes_only (λ g, g ∉ univ) p →
         bounded_registry len0 univ s → bounded_registry len0 univ s')
    ∧ (subscribes_only (λ _, False) p → unsubscribes_only (λ _, False) p →
         listeners s' = listeners s).
Proof.
  induction p as [a|e|v k IH|o k IH|l k IH|pa rp k IH|k IH|k IH|g k IH|g k IH];
    intros s Hp; simpl in Hp; try done.
  - exists a, s. split; [done|]. split; [done|]. split; [done|]. split; [done|].
    split; [by intros L _ Hreg|]. split; [by intros f j _|].
    split; [by intros len0 univ _ _|done].
  - destruct (IH (log (Emitted v) s) Hp) as (a & s' & Hrun & Hst & Hin & Hn & HL & Hk & Hb & Hsame).
    exists a, s'. split; [done|]. split; [done|]. split; [done|].
    split. { rewrite Hn. simpl. rewrite notifications_app. simpl. by rewrite app_nil_r. }
    split; [exact HL|]. split; [exact Hk|]. split; [exact Hb|exact Hsame].
  - destruct (IH (length (heap_of s)) (set_heap (heap_of s ++ [o]) s) (Hp _))
      as (a & s' & Hrun & Hst & Hin & Hn & HL & Hk & Hb & Hsame).
    exists a, s'. split; [done|]. split; [done|]. split; [done|]. split; [done|].
    split. { intros L HsL. apply HL, HsL. }
    split. { intros f j Hu. apply Hk, Hu. }
    split. { intros len0 univ Hs Hu. apply Hb; [apply Hs|apply Hu]. }
    intros Hs Hu. apply Hsame; [apply Hs|apply Hu].
  - destruct (IH _ s (Hp (default ∅ (heap_of s !! l))))
      as (a & s' & Hrun & Hst & Hin & Hn & HL & Hk & Hb & Hsame).
    exists a, s'. split; [done|]. split; [done|]. split; [done|]. split; [done|].
    split. { intros L HsL. apply HL, HsL. }
    split. { intros f j Hu. apply Hk, Hu. }
    split. { intros len0 univ Hs Hu. apply Hb; [apply Hs|apply Hu]. }
    intros Hs Hu. apply Hsame; [apply Hs|apply Hu].
  - destruct (IH _ s (Hp (getState s)))
      as (a & s' & Hrun & Hst & Hin & Hn & HL & Hk & Hb & Hsame).
    exists a, s'. split; [done|]. split; [done|]. split; [done|]. split; [done|].
    split. { intros L HsL. apply HL, HsL. }
    split. { intros f j Hu. apply Hk, Hu. }
    split. { intros len0 univ Hs Hu. apply Hb; [apply Hs|apply Hu]. }
    intros Hs Hu. apply Hsame; [apply Hs|apply Hu].
  - destruct Hp as [[v0 Hv0] Hp].
    destruct (IH _ s (Hp v0))
      as (a & s' & Hrun & Hst & Hin & Hn & HL & Hk & Hb & Hsame).
    exists a, s'.
    split. { intros call n. simpl. unfold getInitialState. rewrite Hv0. apply Hrun. }
    split; [done|]. split; [done|]. split; [done|].
    split. { intros L HsL. apply HL, HsL. }
    split. { intros f j Hu. apply Hk, Hu. }
    split. { intros len0 univ Hs Hu. apply Hb; [apply Hs|apply Hu]. }
    intros Hs Hu. apply Hsame; [apply Hs|apply Hu].
  - destruct (IH (subscribe g s).2 Hp)
      as (a & s' & Hrun & Hst & Hin & Hn & HL & Hk & Hb & Hsame).
    exists a, s'. split; [done|]. split; [done|]. split; [done|]. split; [done|].
    split.
    { intros L [Hg HsL] Hreg. apply HL; [done|].
      intros f [->|Hf]%registered_subscribe; auto. }
    split.
    { intros f j Hu Hj. apply Hk; [done|]. simpl. unfold Set_add.
      destruct (Set_has (listeners s) g); [done|]. by apply lookup_app_l_Some. }
    split.
    { intros len0 univ [Hg Hs] Hu Hbd. apply Hb; [done|done|].
      by apply bounded_registry_subscribe. }
    by intros [[] _].
  - destruct (IH (unsubscribe g s) Hp)
      as (a & s' & Hrun & Hst & Hin & Hn & HL & Hk & Hb & Hsame).
    exists a, s'. split; [done|]. split; [done|]. split; [done|]. split; [done|].
    split.
    { intros L HsL Hreg. apply HL; [done|].
      intros f Hf. rewrite registered_unsubscribe in Hf.
      apply list_elem_of_filter in Hf as [_ Hf]. by apply Hreg. }
    split.
    { intros f j [Hg Hu] Hj. apply Hk; [done|]. simpl. unfold Set_delete.
      rewrite list_lookup_fmap, Hj. simpl. rewrite decide_False; [done|congruence]. }
    split.
    { intros len0 univ Hs [Hg Hu] Hbd. apply Hb; [done|done|].
      by apply bounded_registry_unsubscribe. }
    by intros _ [[] _].
Qed.

Section Polite.
Variable body : fid → list value → prog value.
Variable L : fid → Prop.

(** A pass over listeners that behave, from entry [i] on: it cannot throw;
    the listeners it invokes all get the snapshot and the previous
    snapshot; a listener that is registered from [i] on and that no
    listener between [i] and its entry unsubscribes is among them; without
    registry calls they are the listeners registered from [i] on, in
    order. *)
Lemma forEach_polite fuel previous n : ∀ i s r,
  (∀ f, f ∈ registered s → L f) →
  (∀ f args, L f → polite (is_Some (initialState s)) (body f args)
                   ∧ subscribes_only L (body f args)) →
  forEach n i (notify_one (call_fn body fuel) previous) s = Some r →
  ∃ s' invoked, r = Normal tt s'
    ∧ state s' = state s ∧ initialState s' = initialState s
    ∧ notifications (trace s')
      = notifications (trace s) ++ ((λ g, (g, state s, previous)) <$> invoked)
    ∧ (∀ f j,
         i ≤ j → listeners s !! j = Some (Some f) →
         (∀ i' g args, i ≤ i' → i' < j → listeners s !! i' = Some (Some g) → g ≠ f →
            unsubscribes_only (λ g', g' ≠ f) (body g args)) →
         f ∈ invoked)
    ∧ ((∀ g args, L g → subscribes_only (λ _, False) (body g args)
                        ∧ unsubscribes_only (λ _, False) (body g args)) →
       invoked = omap id (drop i (listeners s)) ∧ listeners s' = listeners s).
Proof.
  induction n as [|n IH]; intros i s r HL Hpol; [done|]. cbn [forEach].
  destruct (listeners s !! i) as [[g|]|] eqn:Hi.
  - assert (L g) as Lg.
    { apply HL, registered_elem. by eapply list_elem_of_lookup_2. }
    destruct (Hpol g [state s; previous] Lg) as [Hpg Hsg].
    unfold notify_one at 1. destruct fuel as [|fuel']; [done|].
    destruct (run_polite (body g [state s; previous])
                (log (Notified g (state s) previous) s) Hpg)
      as (a & s1 & Hrun & Hst & Hin & Hn & HL1 & Hk & _ & Hsame).
    assert (call_fn body (S fuel') g [state s; previous]
              (log (Notified g (state s) previous) s) = Some (Normal a s1)) as Hcall
      by apply Hrun.
    pose proof (call_fn_grows body (S fuel') _ _ _ _ Hcall) as (_ & _ & Hent).
    cbn [log listeners store_of] in Hent.
    rewrite Hcall. intros Hr.
    destruct (IH (S i) s1 r) as (s' & invoked & -> & Hst' & Hin' & Hn' & Hkept & Hfree).
    { apply (HL1 L Hsg). exact HL. }
    { rewrite Hin. exact Hpol. }
    { exact Hr. }
    exists s', (g :: invoked). split; [done|].
    split; [by rewrite Hst', Hst|]. split; [by rewrite Hin', Hin|].
    split.
    { rewrite Hn', Hn, Hst. cbn [log trace state]. rewrite notifications_app.
      simpl. by rewrite <- app_assoc. }
    split.
    + intros f j Hij Hj Hu. destruct (decide (g = f)) as [->|Hne]; [by left|]. right.
      assert (j ≠ i) as Hji by (intros ->; congruence).
      pose proof (lookup_lt_Some _ _ _ Hj) as Hlt.
      apply (Hkept f j); [lia| |].
      * apply Hk; [|exact Hj]. apply (Hu i); [lia|lia|done|done].
      * intros i' g' args Hi1 Hi2 Hg'. apply (Hu i'); [lia|lia|].
        apply Hent; [lia|done].
    + intros Hno. destruct (Hno g [state s; previous] Lg) as [Hns Hnu].
      specialize (Hsame Hns Hnu). cbn [log listeners] in Hsame.
      destruct (Hfree Hno) as [-> Hls']. rewrite Hsame in *.
      split; [|done]. rewrite (drop_S _ _ _ Hi). done.
  - intros Hr.
    destruct (IH (S i) s r HL Hpol Hr)
      as (s' & invoked & -> & Hst' & Hin' & Hn' & Hkept & Hfree).
    exists s', invoked. split; [done|]. split; [done|]. split; [done|].
    split; [done|]. split.
    + intros f j Hij Hj Hu.
      assert (j ≠ i) as Hji by (intros ->; congruence).
      apply (Hkept f j); [lia|done|].
      intros i' g' args Hi1 Hi2. apply (Hu i'); lia.
    + intros Hno. destruct (Hfree Hno) as [-> Hls']. split; [|done].
      by rewrite (drop_S _ _ _ Hi).
  - intros [= <-]. exists s, []. split; [done|]. split; [done|]. split; [done|].
    split; [by rewrite app_nil_r|]. split.
    + intros f j Hij Hj _. apply lookup_ge_None_1 in Hi.
      apply lookup_lt_Some in Hj. lia.
    + intros _. split; [|done]. rewrite drop_ge; [done|]. by apply lookup_ge_None_1.
Qed.

(** The pass comes to its end when the listeners that behave subscribe
    within a finite set and unsubscribe outside of it. *)
Lemma forEach_polite_returns fuel previous len0 univ n : ∀ i s,
  (∀ f, f ∈ registered s → L f) →
  (∀ f args, L f → polite (is_Some (initialState s)) (body f args)
                   ∧ subscribes_only L (body f args)) →
  (∀ g args, L g → subscribes_only (λ g', g' ∈ univ) (body g args)
                   ∧ unsubscribes_only (λ g', g' ∉ univ) (body g args)) →
  bounded_registry len0 univ s →
  len0 + length univ - i < n →
  ∃ s', forEach n i (notify_one (call_fn body (S fuel)) previous) s
        = Some (Normal tt s').
Proof.
  induction n as [|n IH]; intros i s HL Hpol Huniv Hbd Hlen; [lia|]. cbn [forEach].
  pose proof (bounded_registry_length _ _ _ Hbd) as Hmax.
  destruct (listeners s !! i) as [[g|]|] eqn:Hi.
  - pose proof (lookup_lt_Some _ _ _ Hi) as Hlt.
    assert (L g) as Lg.
    { apply HL, registered_elem. by eapply list_elem_of_lookup_2. }
    destruct (Hpol g [state s; previous] Lg) as [Hpg Hsg].
    destruct (Huniv g [state s; previous] Lg) as [Hsu Huu].
    unfold notify_one at 1. cbn [call_fn].
    destruct (run_polite (body g [state s; previous])
                (log (Notified g (state s) previous) s) Hpg)
      as (a & s1 & Hrun & Hst & Hin & Hn & HL1 & _ & Hb & _).
    rewrite Hrun. apply IH; [|by rewrite Hin|done| |lia].
    + apply (HL1 L Hsg). exact HL.
    + by apply Hb.
  - pose proof (lookup_lt_Some _ _ _ Hi) as Hlt. apply IH; [done|done|done|done|lia].
  - by exists s.
Qed.
End Polite.

(** C5, as the code has it.  An identical candidate notifies nobody: the
    store, trace included, is left as it is.  An accepted mutation, when
    the code of the listeners that get notified (the set [L]: those
    registered, and those they subscribe) has no call of [setState] and no
    [throw], and calls [getInitialState] only once the initializer has
    returned: [setState] does not throw, and every listener it has invoked
    when it returns was invoked with the new snapshot and the snapshot
    that was current before the update.  The listeners invoked include
    every listener registered at the update that no listener registered
    before it unsubscribes, and every listener registered when [setState]
    returns; they are the listeners registered at the update, each once
    and in order, when the listeners leave the registry alone.
    [setState] returns when the listeners subscribed on the way come from
    a finite set none of which is unsubscribed.  Nothing is asked of the
    updater nor of functions that are not notified. *)
Theorem notify_polite_listeners body fuel partial replace s next s1 (L : fid → Prop) :
  nextState_of (call_fn body fuel) partial s = Some (Normal next s1) →
  (next = state s1 →
     store_setState body fuel partial replace s = Some (Normal tt s1))
  ∧ (next ≠ state s1 →
     (∀ f, f ∈ registered s1 → L f) →
     (∀ f args, L f → polite (is_Some (initialState s1)) (body f args)
                      ∧ subscribes_only L (body f args)) →
     (∀ r, store_setState body fuel partial replace s = Some r →
        ∃ s' invoked,
          r = Normal tt s'
          ∧ getState s' = state (assign_state replace next s1)
          ∧ notifications (trace s')
            = notifications (trace s1)
              ++ ((λ g, (g, getState s', state s1)) <$> invoked)
          ∧ (∀ j f, listeners s1 !! j = Some (Some f) →
               (∀ i g args, i < j → listeners s1 !! i = Some (Some g) → g ≠ f →
                  unsubscribes_only (λ g', g' ≠ f) (body g args)) →
               f ∈ invoked)
          ∧ (∀ f, f ∈ registered s' → f ∈ invoked)
          ∧ ((∀ g args, L g → subscribes_only (λ _, False) (body g args)
                              ∧ unsubscribes_only (λ _, False) (body g args)) →
             invoked = registered s1 ∧ registered s' = registered s1))
     ∧ (∀ univ,
          (∀ g args, L g → subscribes_only (λ g', g' ∈ univ) (body g args)
                           ∧ unsubscribes_only (λ g', g' ∉ univ) (body g args)) →
          length (listeners s1) + length univ < fuel →
          ∃ s', store_setState body fuel partial replace s = Some (Normal tt s'))).
Proof.
  intros Hn. split.
  - intros ->. by apply setState_ignores.
  - intros Hne HL Hpol. unfold store_setState.
    rewrite (setState_accepts _ _ _ _ _ _ _ Hn Hne).
    set (s2 := assign_state replace next s1).
    assert (registered s2 = registered s1) as Hreg2.
    { unfold registered, s2. by rewrite assign_state_listeners. }
    assert (∀ f, f ∈ registered s2 → L f) as HL2 by (by rewrite Hreg2).
    assert (∀ f args, L f → polite (is_Some (initialState s2)) (body f args)
                            ∧ subscribes_only L (body f args)) as Hpol2.
    { unfold s2. by rewrite assign_state_initialState. }
    split.
    + intros r Hnot.
      destruct (forEach_polite body L fuel (state s1) fuel 0 s2 r HL2 Hpol2 Hnot)
        as (s' & invoked & -> & Hst & _ & Htr & Hkept & Hfree).
      exists s', invoked. split; [done|]. split; [done|].
      unfold getState. rewrite Hst.
      split. { rewrite Htr. unfold s2 at 1. by rewrite assign_state_trace. }
      split; [|split].
      * intros j f Hj Hu.
        assert (listeners s2 = listeners s1) as Hls2
          by (unfold s2; by rewrite assign_state_listeners).
        apply (Hkept f j); [lia|by rewrite Hls2|].
        intros i g args _ Hij Hg. rewrite Hls2 in Hg. by apply (Hu i).
      * intros f Hf.
        destruct (notify_visits body fuel fuel (state s1) s2 s' Hnot)
          as (new & Hnew & Hall).
        destruct (Hall f Hf) as [nx Hnx].
        rewrite Hnew, notifications_app in Htr. apply app_inv_head in Htr.
        assert ((f, nx, state s1) ∈ notifications new) as Hin.
        { unfold notifications. apply list_elem_of_omap.
          exists (Notified f nx (state s1)). by split. }
        rewrite Htr in Hin. apply list_elem_of_fmap in Hin as (g & Hg & Hin).
        by injection Hg as -> _.
      * intros Hno. destruct (Hfree Hno) as [-> Hls]. unfold registered at 2.
        rewrite Hls. by rewrite drop_0.
    + intros univ Huniv Hlen. destruct fuel as [|fuel]; [lia|]. unfold notify.
      apply (forEach_polite_returns body L fuel (state s1) (length (listeners s1)) univ);
        [done|done|done| |lia].
      unfold s2. split; [by rewrite assign_state_listeners|]. exists [].
      rewrite assign_state_listeners, drop_all. split; [done|].
      split; [apply NoDup_nil_2|]. by intros g ?%elem_of_nil.
Qed.

(** An identical candidate on [store_ab]; on [store_ab] again, where the
    only registered listener is 7, with functions of which another one
    throws; and on [store_123], where listener 1 unsubscribes itself and
    listener 2 and subscribes listener 4 while it is notified: the
    listeners invoked, among them 1, 3 and 4, all get the new snapshot
    (address 3) and the previous one (address 0). *)
Lemma notify_polite_listeners_witness :
  store_setState idle 2 (VObj 0) None store_ab = Some (Normal tt store_ab)
  ∧ (∃ s', store_setState throwing 2 (VObj 1) None store_ab = Some (Normal tt s')
       ∧ notifications (trace s') = [(7, VObj 2, VObj 0)])
  ∧ (∃ s' invoked,
       store_setState meddling 5 (VObj 1) None store_123 = Some (Normal tt s')
       ∧ notifications (trace s') = (λ g, (g, VObj 3, VObj 0)) <$> invoked
       ∧ 1 ∈ invoked ∧ 3 ∈ invoked ∧ 4 ∈ invoked).
Proof.
  split; [|split].
  - apply (notify_polite_listeners idle 2 (VObj 0) None store_ab (VObj 0) store_ab
             (λ _, True)); reflexivity.
  - destruct (notify_polite_listeners throwing 2 (VObj 1) None store_ab (VObj 1)
                store_ab (λ f, f = 7) eq_refl) as [_ Hacc].
    destruct Hacc as [Hall Hret].
    { discriminate. }
    { intros f Hf. by apply list_elem_of_singleton in Hf. }
    { intros f args ->. simpl. auto. }
    destruct (Hret []) as [s' Hs'].
    { intros g args ->. simpl. auto. }
    { simpl. lia. }
    exists s'. split; [exact Hs'|].
    destruct (Hall _ Hs') as (s'' & invoked & Heq & Hst & Htr & _ & _ & Hfree).
    injection Heq as <-.
    destruct Hfree as [-> _]; [intros g args ->; simpl; auto|].
    rewrite Htr, Hst. reflexivity.
  - destruct (notify_polite_listeners meddling 5 (VObj 1) None store_123 (VObj 1)
                store_123 (λ _, True) eq_refl) as [_ Hacc].
    destruct Hacc as [Hall Hret].
    { discriminate. }
    { intros; exact I. }
    { intros [|[|f]] args _; simpl; auto. }
    destruct (Hret [4]) as [s' Hs'].
    { intros [|[|g]] args _; simpl; auto.
      split; [split; [apply list_elem_of_here|done]|].
      split; [|split; [|done]];
        intros Hin; apply list_elem_of_singleton in Hin; discriminate. }
    { simpl. lia. }
    destruct (Hall _ Hs') as (s'' & invoked & Heq & Hst & Htr & Hkept & Hend & _).
    injection Heq as <-.
    exists s', invoked. split; [exact Hs'|].
    split; [rewrite Htr, Hst; reflexivity|].
    split; [|split].
    + apply (Hkept 0); [reflexivity|]. intros i g args Hi. lia.
    + apply (Hkept 2); [reflexivity|].
      intros [|[|i]] g args Hi Hg _; [| |lia]; injection Hg as <-; simpl; auto.
    + apply Hend. injection Hs' as <-. vm_compute. repeat constructor.
Defined.

(** C5 fails as stated.  First, listener 1 re-enters [setState] while it
    is being notified of the update from [{n: 0}] (address 0) to the
    merged object at address 3: listener 2, registered all along, is never
    invoked with (3, 0); the inner pass calls it with (4, 3) and the outer
    one, which reads [state] when it calls, with (4, 0).  Second, listener
    1 throws: [setState] throws and listener 2 is not invoked at all.
    Third, listener 1 unsubscribes listener 2 while it is notified:
    listener 2, registered when the update was made, is not invoked.
    Fourth, the initializer calls [setState] after it has subscribed
    listeners 1 and 2, and listener 1 calls [getInitialState()]: that
    throws, and listener 2 is not invoked. *)
Lemma notify_every_listener_counterexample :
  (∃ s',
     store_setState reentrant 4 (VObj 1) None store_n = Some (Normal tt s')
     ∧ VObj 1 ≠ state store_n
     ∧ state (assign_state None (VObj 1) store_n) = VObj 3
     ∧ 2 ∈ registered store_n
     ∧ ((2, VObj 3, VObj 0) ∉ notifications (trace s'))
     ∧ notifications (trace s')
       = [(1, VObj 3, VObj 0); (1, VObj 4, VObj 3); (2, VObj 4, VObj 3);
          (2, VObj 4, VObj 0)])
  ∧ (∃ s',
     store_setState throwing 4 (VObj 1) None store_n = Some (Threw (VStr "boom") s')
     ∧ 2 ∈ registered store_n
     ∧ notifications (trace s') = [(1, VObj 3, VObj 0)])
  ∧ (∃ s',
     store_setState meddling 5 (VObj 1) None store_123 = Some (Normal tt s')
     ∧ VObj 1 ≠ state store_123
     ∧ 2 ∈ registered store_123
     ∧ notifications (trace s')
       = [(1, VObj 3, VObj 0); (3, VObj 3, VObj 0); (4, VObj 3, VObj 0)])
  ∧ (∃ s',
     store_setState peeking 4 (VObj 0) None store_building
     = Some (Threw ReferenceError s')
     ∧ 2 ∈ registered store_building
     ∧ notifications (trace s') = [(1, VObj 1, VUndefined)]).
Proof.
  split; [|split; [|split]].
  - eexists. split; [reflexivity|]. split; [discriminate|]. split; [reflexivity|].
    split; [vm_compute; repeat constructor|]. split; [|reflexivity].
    vm_compute. intros Hin.
    repeat (apply elem_of_cons in Hin as [Hin|Hin]; [discriminate|]).
    by apply elem_of_nil in Hin.
  - eexists. split; [reflexivity|]. split; [vm_compute; repeat constructor|].
    reflexivity.
  - eexists. split; [reflexivity|]. split; [discriminate|].
    split; [vm_compute; repeat constructor|]. reflexivity.
  - eexists. split; [reflexivity|]. split; [vm_compute; repeat constructor|].
    reflexivity.
Qed.

(** ** Hydration failures *)

(** C9. When reading the storage or deserializing what it holds fails,
    the construction of a persisted store returns normally: the store is
    the one the core built, untouched; the hydration is Completed(error);
    every hydration-finished observer has been called with no state and
    the error.  The same holds for any later attempt on any store. *)
Theorem hydration_failure_is_contained body fuel o createState h s0 e :
  createStoreImpl body fuel createState h = Some (Normal api s0) →
  Persist.skipHydration o = false →
  (Persist.raw_getItem o (Persist.name o) = Persist.Raise e
   ∨ ∃ text, Persist.raw_getItem o (Persist.name o) = Persist.Ok (Some text)
       ∧ Persist.deserialize o text = Persist.Raise e) →
  (∃ p,
     Persist.create_persisted body fuel o createState h = Some (Normal (api, p) s0)
     ∧ Persist.status p = Persist.Completed (Persist.Error e)
     ∧ Persist.calls p
       = (λ cb, Persist.HydrateFinished cb None (Some e))
           <$> Persist.finish_observers o p)
  ∧ (∀ p s, ∃ p',
       Persist.rehydrate body fuel o p s = Some (Normal p' s)
       ∧ Persist.status p' = Persist.Completed (Persist.Error e)
       ∧ ∀ cb, cb ∈ Persist.finish_observers o p →
           Persist.HydrateFinished cb None (Some e) ∈ Persist.calls p').
Proof.
  intros Hc Hskip Hfail.
  assert (Persist.getItem o = Persist.Raise e) as Hget.
  { unfold Persist.getItem. destruct Hfail as [->|(text & -> & ->)]; done. }
  split.
  - unfold Persist.create_persisted, Persist.rehydrate. rewrite Hc, Hskip, Hget.
    eexists. split; [reflexivity|]. split; reflexivity.
  - intros p s. unfold Persist.rehydrate. rewrite Hget.
    eexists. split; [reflexivity|]. split; [reflexivity|].
    intros cb Hcb. simpl. apply elem_of_app. right.
    by apply (list_elem_of_fmap_2 (λ cb, Persist.HydrateFinished cb None (Some e))).
Qed.

(** The stored text does not parse: the counter is constructed with
    [{count: 0}], and the observer is told the error.  With a storage that
    holds [{count: 5}] the same construction ends with count 5. *)
Lemma hydration_failure_is_contained_witness :
  (∃ p s0,
     Persist.create_persisted counter_fns 1 Persist.broken_storage counter_init []
     = Some (Normal (api, p) s0)
     ∧ own_props (heap_of s0) (getState s0) = {[ "count" := VNum 0 ]}
     ∧ Persist.status p = Persist.Completed (Persist.Error Persist.SyntaxError)
     ∧ Persist.calls p = [Persist.HydrateFinished 9 None (Some Persist.SyntaxError)])
  ∧ (∃ p s0,
     Persist.create_persisted counter_fns 1 Persist.good_storage counter_init []
     = Some (Normal (api, p) s0)
     ∧ own_props (heap_of s0) (getState s0) = {[ "count" := VNum 5 ]}
     ∧ Persist.status p = Persist.Completed Persist.Success).
Proof.
  split.
  - destruct (hydration_failure_is_contained counter_fns 1 Persist.broken_storage
                counter_init [] _ Persist.SyntaxError eq_refl eq_refl)
      as [(p & Hc & Hst & Hcalls) _].
    { right. exists "{count". by split. }
    exists p. eexists. split; [exact Hc|]. split; [reflexivity|].
    split; [exact Hst|]. rewrite Hcalls.
    injection Hc as <-. reflexivity.
  - eexists _, _. split; [reflexivity|]. split; reflexivity.
Defined.

(** * Further properties of the store *)

(** ** The registry as a set *)

Section Distinct.
Variable body : fid → list value → prog value.

Lemma distinct_refl s : distinct s s.
Proof. by intros ?. Qed.

Lemma distinct_trans s1 s2 s3 : distinct s1 s2 → distinct s2 s3 → distinct s1 s3.
Proof. unfold distinct. auto. Qed.

Lemma distinct_subscribe s g : distinct s (subscribe g s).2.
Proof.
  intros Hnd. unfold registered. simpl. rewrite omap_Set_add.
  destruct (Set_has (listeners s) g) eqn:Hhas; [done|].
  apply bool_decide_eq_false_1 in Hhas.
  apply NoDup_app. split; [done|]. split; [|apply NoDup_singleton].
  intros x Hx ->%list_elem_of_singleton. by apply Hhas, registered_elem.
Qed.

Lemma distinct_unsubscribe s g : distinct s (unsubscribe g s).
Proof. intros Hnd. rewrite registered_unsubscribe. by apply NoDup_filter. Qed.

Lemma distinct_assign s replace v : distinct s (assign_state replace v s).
Proof. unfold distinct, registered. by rewrite assign_state_listeners. Qed.

Lemma exec_distinct fuel {A} (p : prog A) s r :
  exec body fuel p s = Some r → distinct s (store_of r).
Proof.
  apply (exec_keeps body (λ _, True) distinct
           (λ _ _, subscribes_only_any _) distinct_refl distinct_trans);
    [by intros ? ? ?|by intros ? ? ? ? ?|by intros ? ? ?|apply distinct_assign
    |intros; apply distinct_subscribe|apply distinct_unsubscribe
    |apply subscribes_only_any].
Qed.
End Distinct.

(** X1. From construction on, whatever user code does with the store
    (subscribing, unsubscribing, mutating, from listeners or not, returning
    or throwing), the registry holds no listener twice. *)
Theorem registry_has_no_duplicates body fuel createState h handle s0 :
  createStoreImpl body fuel createState h = Some (Normal handle s0) →
  NoDup (registered s0)
  ∧ ∀ fuel' A (p : prog A) r,
      exec body fuel' p s0 = Some r → NoDup (registered (store_of r)).
Proof.
  unfold createStoreImpl. intros Hc.
  destruct (exec body fuel _ (fresh_store h)) as [[v s1|e s1]|] eqn:He; try discriminate.
  injection Hc as <- <-.
  assert (NoDup (registered (set_initialState v (set_state v s1)))) as Hnd.
  { apply (exec_distinct body _ _ _ _ He). apply NoDup_nil_2. }
  split; [exact Hnd|].
  intros fuel' A p r Hexec. by apply (exec_distinct body _ _ _ _ Hexec).
Qed.

(** The counter's store, after user code has subscribed listener 5 three
    times and listener 6 once, has the registry [5; 6]. *)
Lemma registry_has_no_duplicates_witness :
  ∃ s0 r,
    createStoreImpl counter_fns 1 counter_init [] = Some (Normal api s0)
    ∧ exec counter_fns 1
        (CallSubscribe 5 (CallSubscribe 5 (CallSubscribe 6 (CallSubscribe 5 (Done tt)))))
        s0 = Some r
    ∧ registered (store_of r) = [5; 6]
    ∧ NoDup (registered (store_of r)).
Proof.
  eexists _, _. split; [reflexivity|]. split; [reflexivity|]. split; [reflexivity|].
  destruct (registry_has_no_duplicates counter_fns 1 counter_init [] api _ eq_refl)
    as [_ H].
  exact (H 1 unit
           (CallSubscribe 5 (CallSubscribe 5 (CallSubscribe 6 (CallSubscribe 5 (Done tt)))))
           _ eq_refl).
Defined.

Lemma subscribe_registered f s : f ∈ registered s → (subscribe f s).2 = s.
Proof.
  intros Hf. apply registered_elem in Hf. destruct s as [h st ini ls t].
  unfold subscribe, set_listeners, Set_add, Set_has. simpl in *.
  by rewrite bool_decide_eq_true_2.
Qed.

Lemma subscribe_fresh f s :
  f ∉ registered s → registered (subscribe f s).2 = registered s ++ [f].
Proof.
  intros Hf. unfold registered. simpl. rewrite omap_Set_add.
  unfold Set_has. rewrite bool_decide_eq_false_2; [done|].
  intros Hin. by apply Hf, registered_elem.
Qed.

(** X2. [subscribe] of a listener that is registered changes nothing, so
    that subscribing twice registers once and one call of the returned
    closure removes the listener for both subscribers; [subscribe] of a
    listener that is not registered puts it last, and with listeners that
    only observe the next accepted mutation notifies those registered
    before it, in their order, and then the new one. *)
Theorem subscribe_registers_once_at_the_end body f s :
  (f ∈ registered s → (subscribe f s).2 = s)
  ∧ (f ∉ registered s → registered (subscribe f s).2 = registered s ++ [f])
  ∧ (subscribe f (subscribe f s).2).2 = (subscribe f s).2
  ∧ (f ∉ registered ((subscribe f s).1 (subscribe f (subscribe f s).2).2))
  ∧ (f ∉ registered s → (∀ g args, observer (body g args)) →
     ∀ fuel partial replace next s1,
       nextState_of (call_fn body fuel) partial (subscribe f s).2
       = Some (Normal next s1) →
       next ≠ state s1 → length (listeners s1) < fuel →
       ∃ r, store_setState body fuel partial replace (subscribe f s).2
            = Some (Normal tt r)
         ∧ notifications (trace r)
           = notifications (trace s1)
             ++ ((λ g, (g, getState r, state s1)) <$> registered s)
             ++ [(f, getState r, state s1)]).
Proof.
  split; [apply subscribe_registered|]. split; [apply subscribe_fresh|].
  split; [apply subscribe_registered, registered_subscribe; by left|].
  split.
  { simpl. rewrite registered_unsubscribe, list_elem_of_filter. by intros [? _]. }
  intros Hf Hobs fuel partial replace next s1 Hn Hne Hlen.
  destruct (setState_observers body fuel partial replace _ next s1 Hobs Hn Hlen)
    as (r & Hset & Hcase).
  exists r. split; [exact Hset|]. rewrite decide_False in Hcase by done.
  destruct Hcase as (Hst & _ & Htr). rewrite Htr, Hst. f_equal.
  destruct (nextState_of_observers body fuel partial _ next s1 Hobs Hn) as [Hls _].
  unfold registered at 1. rewrite Hls. fold (registered (subscribe f s).2).
  rewrite (subscribe_fresh f s Hf). by rewrite fmap_app.
Qed.

(** Listener 9 is subscribed twice to the store that has listener 7: the
    next update notifies 7, then 9, once each; one unsubscription removes
    it. *)
Lemma subscribe_registers_once_at_the_end_witness :
  registered (subscribe 9 (subscribe 9 store_ab).2).2 = [7; 9]
  ∧ registered ((subscribe 9 store_ab).1 (subscribe 9 (subscribe 9 store_ab).2).2) = [7]
  ∧ ∃ r, store_setState idle 3 (VObj 1) None (subscribe 9 store_ab).2
         = Some (Normal tt r)
      ∧ notifications (trace r) = [(7, VObj 2, VObj 0); (9, VObj 2, VObj 0)].
Proof.
  destruct (subscribe_registers_once_at_the_end idle 9 store_ab)
    as (_ & _ & Htwice & _ & Hlast).
  split; [by rewrite Htwice|]. split; [reflexivity|].
  destruct (Hlast) with (fuel := 3) (partial := VObj 1) (replace := @None bool)
                        (next := VObj 1) (s1 := (subscribe 9 store_ab).2)
    as (r & Hset & Htr).
  - vm_compute. intros Hin. apply elem_of_cons in Hin as [Hin|Hin]; [discriminate|].
    by apply elem_of_nil in Hin.
  - intros; exact I.
  - reflexivity.
  - discriminate.
  - simpl. lia.
  - exists r. split; [exact Hset|]. rewrite Htr.
    injection Hset as <-. reflexivity.
Defined.

(** ** Listeners removed while a pass is running *)

(** X3. Once a listener is out of the registry, what remains of the
    notification pass, from whatever entry it has reached, does not invoke
    it (unless some function subscribes it again), however the pass
    ends. *)
Theorem rest_of_pass_skips_removed_listener body f fuel previous n i s r :
  (∀ g args, subscribes_only (λ g', g' ≠ f) (body g args)) →
  f ∉ registered s →
  forEach n i (notify_one (call_fn body fuel) previous) s = Some r →
  (f ∉ registered (store_of r))
  ∧ notified f (trace (store_of r)) = notified f (trace s).
Proof.
  intros Hsub Hout Hpass.
  assert (silent f s (store_of r)) as Hsilent; [|by apply Hsilent].
  revert Hpass. apply (forEach_keeps (silent f) (silent_refl f) (silent_trans f)).
  intros g s' r' Hg Hcall. unfold notify_one in Hcall.
  eapply silent_trans; [apply (silent_notify f s' g previous Hg)|].
  revert Hcall.
  apply (call_fn_keeps body (λ g', g' ≠ f) (silent f) Hsub
           (silent_refl f) (silent_trans f) (silent_emit f) (silent_notify f)
           (silent_alloc f) (silent_assign f) (silent_subscribe f)
           (silent_unsubscribe f)).
Qed.

(** Listener 1 has just unsubscribed itself and listener 2 from
    [1; 2; 3]: the pass goes on from the second entry and invokes
    listener 3 only. *)
Lemma rest_of_pass_skips_removed_listener_witness :
  ∃ r, forEach 5 1 (notify_one (call_fn idle 5) (VObj 0))
         (unsubscribe 2 (unsubscribe 1 store_123)) = Some r
    ∧ notified 2 (trace (store_of r)) = []
    ∧ notifications (trace (store_of r)) = [(3, VObj 0, VObj 0)].
Proof.
  eexists. split; [reflexivity|].
  split; [|reflexivity].
  refine (proj2 (rest_of_pass_skips_removed_listener idle 2 5 (VObj 0) 5 1
                   (unsubscribe 2 (unsubscribe 1 store_123)) _ _ _ eq_refl)).
  - intros g args. exact I.
  - vm_compute. intros Hin. apply elem_of_cons in Hin as [Hin|Hin]; [discriminate|].
    by apply elem_of_nil in Hin.
Defined.

(** ** Merging values without properties *)

Lemma plain_own_props h v : plain h v → own_props h v !! "__proto__" = None.
Proof.
  destruct v as [| | | | |l|]; simpl; try done.
  intros Hp. destruct (h !! l) as [o|] eqn:Hl; simpl; [by apply Hp|done].
Qed.

(** X4. Whenever [setState] merges (the flag is [false], or it is left
    out and the candidate is an object), and snapshot and candidate are
    each [undefined], [null], a boolean, a number or an object without an
    own property named [__proto__], the new snapshot is a new object whose
    fields are the candidate's fields over the snapshot's.  So a candidate
    without properties ([undefined], [null], a boolean, a number) given
    with the flag [false] yields a copy of the snapshot's fields, and
    merging into a snapshot without properties yields the candidate's
    fields. *)
Theorem setState_merges_own_properties body fuel partial replace s next s1 :
  nextState_of (call_fn body fuel) partial s = Some (Normal next s1) →
  next ≠ state s1 → replaces replace next = false →
  valid (heap_of s1) next →
  plain (heap_of s1) next → plain (heap_of s1) (state s1) →
  ∃ s2,
    store_setState body fuel partial replace s
    = notify (call_fn body fuel) fuel (state s1) s2
    ∧ getState s2 = VObj (length (heap_of s1))
    ∧ own_props (heap_of s2) (getState s2)
      = own_props (heap_of s1) next ∪ own_props (heap_of s1) (state s1)
    ∧ (typeof next ≠ TObject →
       own_props (heap_of s2) (getState s2) = own_props (heap_of s1) (state s1))
    ∧ (next = VNull →
       own_props (heap_of s2) (getState s2) = own_props (heap_of s1) (state s1))
    ∧ (typeof (state s1) ≠ TObject →
       own_props (heap_of s2) (getState s2) = own_props (heap_of s1) next)
    ∧ (∀ l0 o0, state s1 = VObj l0 → heap_of s1 !! l0 = Some o0 →
       typeof next ≠ TObject ∨ next = VNull →
       heap_of s2 !! length (heap_of s1) = Some o0)
    ∧ (∀ lc oc, next = VObj lc → heap_of s1 !! lc = Some oc →
       typeof (state s1) ≠ TObject ∨ state s1 = VNull →
       heap_of s2 !! length (heap_of s1) = Some oc).
Proof.
  intros Hn Hne Hrep Hv Hpn Hps. unfold store_setState, getState.
  rewrite (setState_accepts _ _ _ _ _ _ _ Hn Hne).
  rewrite (assign_state_merges _ _ _ Hrep Hv).
  rewrite !written_plain by done.
  eexists. split; [reflexivity|]. split; [reflexivity|].
  assert (own_props
            (heap_of s1 ++ [own_props (heap_of s1) next ∪ own_props (heap_of s1) (state s1)])
            (VObj (length (heap_of s1)))
          = own_props (heap_of s1) next ∪ own_props (heap_of s1) (state s1)) as Hown.
  { simpl. by rewrite list_lookup_middle. }
  simpl state. simpl heap_of. rewrite Hown. rewrite list_lookup_middle by done.
  split; [done|]. split; [|split; [|split; [|split]]].
  - intros Ho. destruct next; try done; simpl; by rewrite (left_id_L ∅ (∪)).
  - intros ->. simpl. by rewrite (left_id_L ∅ (∪)).
  - intros Ho. destruct (state s1); try done; simpl; by rewrite (right_id_L ∅ (∪)).
  - intros l0 o0 Hst H0 Hnone. rewrite Hst. simpl. rewrite H0. simpl.
    destruct Hnone as [Ho| ->]; [destruct next; try done|];
      simpl; by rewrite (left_id_L ∅ (∪)).
  - intros lc oc -> Hc Hnone. simpl. rewrite Hc. simpl.
    destruct Hnone as [Ho|Heq]; [destruct (state s1); try done|rewrite Heq];
      simpl; by rewrite (right_id_L ∅ (∪)).
Qed.

(** The snapshot is [null] and [{n: 1}] is merged into it: the new
    snapshot is a new object with the field [n]. *)
Lemma setState_merges_own_properties_witness :
  ∃ s2, store_setState idle 1 (VObj 0) None store_null
        = notify (call_fn idle 1) 1 VNull s2
    ∧ getState s2 = VObj 1
    ∧ own_props (heap_of s2) (getState s2) = {[ "n" := VNum 1 ]}
    ∧ heap_of s2 !! 1 = Some {[ "n" := VNum 1 ]}.
Proof.
  destruct (setState_merges_own_properties idle 1 (VObj 0) None store_null (VObj 0)
              store_null)
    as (s2 & Hset & Hst & Hown & _ & _ & _ & _ & Hobj);
    [reflexivity|discriminate|reflexivity|simpl; lia| |exact I|].
  { intros o Ho. injection Ho as <-. reflexivity. }
  exists s2. split; [exact Hset|]. split; [exact Hst|].
  split; [rewrite Hown; by vm_compute|].
  apply (Hobj 0 _ eq_refl eq_refl). by right.
Defined.

(** ** Successive merges *)

(** X5. With listeners that only observe, a sequence of [setState] calls
    with object candidates and no flag, on a snapshot that is an object or
    has no properties, none of the objects having an own property named
    [__proto__], returns, and the fields of the snapshot it leaves are
    those of the candidates laid one after the other over the fields of
    the snapshot it started from: a field has the value of the last
    candidate that has it, and otherwise the value it had. *)
Theorem successive_merges_accumulate body fuel locs : ∀ ocs s,
  (∀ f args, observer (body f args)) →
  Forall2 (λ l oc, heap_of s !! l = Some oc) locs ocs →
  Forall (λ oc : obj, oc !! "__proto__" = None) ocs →
  plain (heap_of s) (state s) →
  length (listeners s) < fuel →
  ∃ s',
    setState_seq body fuel ((λ l, (VObj l, None)) <$> locs) s = Some (Normal tt s')
    ∧ own_props (heap_of s') (getState s')
      = merge_all (own_props (heap_of s) (state s)) ocs
    ∧ listeners s' = listeners s.
Proof.
  induction locs as [|l locs IH]; intros ocs s Hobs Hall Hnp Hps Hlen.
  - apply Forall2_nil_inv_l in Hall as ->. by exists s.
  - apply Forall2_cons_inv_l in Hall as (oc & ocs' & Hl & Hrest & ->).
    apply Forall_cons in Hnp as [Hnoc Hnp].
    csimpl. unfold merge_all. simpl. fold (merge_all (oc ∪ own_props (heap_of s) (state s)) ocs').
    destruct (decide (VObj l = state s)) as [Heq|Hne].
    + assert (nextState_of (call_fn body fuel) (VObj l) s = Some (Normal (state s) s))
        as Hn by (by rewrite <- Heq).
      unfold store_setState. rewrite (setState_ignores _ _ _ _ _ _ Hn).
      destruct (IH ocs' s Hobs Hrest Hnp Hps Hlen) as (s' & Hseq & Hown & Hls).
      exists s'. split; [done|]. split; [|done]. rewrite Hown.
      rewrite <- Heq. simpl. rewrite Hl. simpl. by rewrite (idemp (∪) oc).
    + assert (nextState_of (call_fn body fuel) (VObj l) s = Some (Normal (VObj l) s))
        as Hn by done.
      destruct (setState_observers body fuel (VObj l) None s (VObj l) s Hobs Hn Hlen)
        as (s1 & Hset & Hcase).
      rewrite decide_False in Hcase by done. destruct Hcase as (Hst & Hls & _).
      rewrite Hset.
      assert (valid (heap_of s) (VObj l)) as Hv by (eapply lookup_lt_Some; eauto).
      assert (plain (heap_of s) (VObj l)) as Hpl by (intros o Ho; congruence).
      pose proof Hset as Hnot. unfold store_setState in Hnot.
      rewrite (setState_accepts _ _ _ _ _ _ _ Hn Hne) in Hnot.
      apply notify_frame in Hnot. destruct Hnot as [_ Hp].
      rewrite (assign_state_merges None (VObj l) s eq_refl Hv) in Hst, Hp.
      rewrite !written_plain in Hp by done.
      simpl in Hst, Hp. rewrite Hl in Hp. simpl in Hp.
      assert (heap_of s `prefix_of` heap_of s1) as Hp0.
      { etrans; [|exact Hp]. by apply prefix_app_r. }
      unfold getState in Hst.
      assert (heap_of s1 !! length (heap_of s)
              = Some (oc ∪ own_props (heap_of s) (state s))) as Hnew.
      { destruct Hp as [extra ->].
        rewrite lookup_app_l by (rewrite length_app; simpl; lia).
        by rewrite list_lookup_middle. }
      destruct (IH ocs' s1 Hobs) as (s' & Hseq & Hown & Hls').
      { eapply Forall2_impl; [exact Hrest|]. intros l' oc' Hl'. simpl in Hl'.
        destruct Hp0 as [extra ->]. by apply lookup_app_l_Some. }
      { done. }
      { rewrite Hst. intros o Ho.
        pose proof (eq_trans (eq_sym Ho) Hnew) as Heq. injection Heq as ->.
        rewrite lookup_union, Hnoc, (plain_own_props _ _ Hps). done. }
      { by rewrite Hls. }
      exists s'. split; [done|]. split; [|congruence].
      rewrite Hown. f_equal. rewrite Hst.
      change (default ∅ (heap_of s1 !! length (heap_of s))
              = oc ∪ own_props (heap_of s) (state s)).
      by rewrite Hnew.
Qed.

(** On [{a: 0, b: 2}], merging [{a: 1}] and then [{a: 0, b: 2}] again. *)
Lemma successive_merges_accumulate_witness :
  ∃ s', setState_seq idle 2 [(VObj 1, None); (VObj 0, None)] store_ab
        = Some (Normal tt s')
    ∧ own_props (heap_of s') (getState s') = {[ "a" := VNum 0; "b" := VNum 2 ]}
    ∧ getState s' = VObj 3.
Proof.
  destruct (successive_merges_accumulate idle 2 [1; 0]
              [ {[ "a" := VNum 1 ]}; {[ "a" := VNum 0; "b" := VNum 2 ]} ] store_ab)
    as (s' & Hseq & Hown & _).
  - intros; exact I.
  - repeat constructor.
  - repeat constructor.
  - intros o Ho. injection Ho as <-. reflexivity.
  - simpl. lia.
  - exists s'. split; [exact Hseq|]. split.
    + rewrite Hown. by vm_compute.
    + injection Hseq as <-. reflexivity.
Defined.

(** ** Listeners that throw *)

Lemma run_never_sets call n {A} (p : prog A) : ∀ s r,
  never_sets p → run call n p s = Some r → state (store_of r) = state s.
Proof.
  induction p as [a|e|v k IH|o k IH|l k IH|pa rp k IH|k IH|k IH|f k IH|f k IH];
    intros s r Hq; simpl in *; try done.
  - by intros [= <-].
  - by intros [= <-].
  - intros Hr. by rewrite (IH _ _ Hq Hr).
  - intros Hr. by rewrite (IH _ _ _ (Hq _) Hr).
  - intros Hr. by rewrite (IH _ _ _ (Hq _) Hr).
  - intros Hr. by rewrite (IH _ _ _ (Hq _) Hr).
  - unfold getInitialState. destruct (initialState s).
    + intros Hr. by rewrite (IH _ _ _ (Hq _) Hr).
    + by intros [= <-].
  - intros Hr. by rewrite (IH _ _ Hq Hr).
  - intros Hr. by rewrite (IH _ _ Hq Hr).
Qed.

Lemma forEach_never_sets body fuel previous n : ∀ i s r,
  (∀ f args, never_sets (body f args)) →
  forEach n i (notify_one (call_fn body fuel) previous) s = Some r →
  state (store_of r) = state s.
Proof.
  induction n as [|n IH]; intros i s r Hq; [done|]. cbn [forEach].
  destruct (listeners s !! i) as [[g|]|]; [|by apply IH|by intros [= <-]].
  destruct (notify_one (call_fn body fuel) previous g s) as [[v s1|e s1]|] eqn:Hcb;
    [| |done].
  - intros Hr. rewrite (IH _ _ _ Hq Hr).
    unfold notify_one in Hcb. destruct fuel as [|fuel]; [done|].
    by apply (run_never_sets _ _ _ _ _ (Hq _ _)) in Hcb.
  - intros [= <-].
    unfold notify_one in Hcb. destruct fuel as [|fuel]; [done|].
    by apply (run_never_sets _ _ _ _ _ (Hq _ _)) in Hcb.
Qed.

(** X6. When no listener re-enters [setState], the snapshot that an
    accepted mutation assigned is the one [getState()] returns once
    [setState] is over, whether it returned or a listener threw: a
    listener that throws, or that changes the registry, does not undo the
    update. *)
Theorem update_survives_listener_failure body fuel partial replace s next s1 r :
  (∀ f args, never_sets (body f args)) →
  nextState_of (call_fn body fuel) partial s = Some (Normal next s1) →
  next ≠ state s1 →
  store_setState body fuel partial replace s = Some r →
  getState (store_of r) = state (assign_state replace next s1).
Proof.
  intros Hq Hn Hne. unfold store_setState.
  rewrite (setState_accepts _ _ _ _ _ _ _ Hn Hne). unfold notify.
  apply forEach_never_sets, Hq.
Qed.

(** Listener 1 throws when [{n: 1}] is merged into [{n: 0}]: the call
    throws, and the snapshot is the merged object at address 3. *)
Lemma update_survives_listener_failure_witness :
  ∃ s', store_setState throwing 4 (VObj 1) None store_n = Some (Threw (VStr "boom") s')
    ∧ getState s' = VObj 3
    ∧ own_props (heap_of s') (getState s') = {[ "n" := VNum 1 ]}.
Proof.
  eexists. split; [reflexivity|]. split; [|reflexivity].
  refine (update_survives_listener_failure throwing 4 (VObj 1) None store_n
            (VObj 1) store_n _ _ eq_refl _ eq_refl).
  - intros [|[|f]] args; exact I.
  - discriminate.
Defined.

(** ** During construction *)

Lemma run_bind call n {A B} (p : prog A) (k : A → prog B) : ∀ s,
  run call n (prog_bind p k) s
  = match run call n p s with
    | Some (Normal a s') => run call n (k a) s'
    | Some (Threw e s') => Some (Threw e s')
    | None => None
    end.
Proof.
  induction p as [a|e|v p IH|o p IH|l p IH|pa rp p IH|p IH|p IH|f p IH|f p IH];
    intros s; simpl; try done.
  - by destruct (setState call n pa rp s) as [[u s'|e s']|].
  - by destruct (getInitialState s).
Qed.

(** X7. While the initializer runs, [initialState] is not initialised:
    whatever the initializer has done before (mutations and subscriptions
    included), a call of [getInitialState()] from it throws, and
    [createStoreImpl] throws with it; no store handle is returned. *)
Theorem getInitialState_throws_during_construction body fuel h
    (before : prog value) (rest : value → value → prog value) a s :
  exec body fuel before (fresh_store h) = Some (Normal a s) →
  createStoreImpl body fuel
    (λ _ _ handle,
       prog_bind before (λ a, prog_bind (api_getInitialState handle) (rest a)))
    h
  = Some (Threw ReferenceError s).
Proof.
  intros Hb. unfold createStoreImpl, exec in *.
  rewrite run_bind, Hb. simpl. unfold getInitialState.
  pose proof (exec_frame body fuel before (fresh_store h) _ Hb) as [Hi _].
  simpl in Hi. by rewrite Hi.
Qed.

(** The initializer merges [{count: 0}] and then asks for the initial
    state. *)
Lemma getInitialState_throws_during_construction_witness :
  ∃ s,
    createStoreImpl idle 1
      (λ _ _ handle,
         prog_bind (Alloc {[ "count" := VNum 0 ]}
                      (λ l, CallSetState (VObj l) None (Done (VObj l))))
           (λ a, prog_bind (api_getInitialState handle) (λ _, Done a)))
      []
    = Some (Threw ReferenceError s)
    ∧ own_props (heap_of s) (getState s) = {[ "count" := VNum 0 ]}.
Proof.
  eexists. split.
  - eapply (getInitialState_throws_during_construction idle 1 []
             (Alloc {[ "count" := VNum 0 ]}
                (λ l, CallSetState (VObj l) None (Done (VObj l))))
             (λ a _, Done a)).
    reflexivity.
  - reflexivity.
Defined.

(** ** A listener that subscribes itself again *)

Lemma Set_delete_absent f ls : Some f ∉ Set_delete f ls.
Proof.
  unfold Set_delete. intros (e & He & _)%list_elem_of_fmap.
  destruct (decide (e = Some f)); [done|]. by subst e.
Qed.

Lemma resubscribe_last f s :
  listeners (subscribe f (unsubscribe f s)).2 !! length (listeners s) = Some (Some f).
Proof.
  simpl. unfold Set_add, Set_has.
  rewrite bool_decide_eq_false_2 by apply Set_delete_absent.
  replace (length (listeners s)) with (length (Set_delete f (listeners s)))
    by (unfold Set_delete; apply length_fmap).
  by apply list_lookup_middle.
Qed.

Section Resubscribing.
Variable body : fid → list value → prog value.
Variable f : fid.
Hypothesis resubscribes : ∀ args,
  ∃ v, body f args = CallUnsubscribe f (CallSubscribe f (Done v)).
Hypothesis others_observe : ∀ g args, g ≠ f → observer (body g args).

Lemma forEach_resubscribing fuel previous n : ∀ i s,
  (∃ j, i ≤ j ∧ listeners s !! j = Some (Some f)) →
  forEach n i (notify_one (call_fn body fuel) previous) s = None.
Proof.
  induction n as [|n IH]; intros i s (j & Hij & Hj); [done|]. cbn [forEach].
  pose proof (lookup_lt_Some _ _ _ Hj) as Hjlt.
  destruct (listeners s !! i) as [[g|]|] eqn:Hi.
  - unfold notify_one at 1. destruct fuel as [|fuel]; [done|].
    destruct (decide (g = f)) as [->|Hne]; cbn [call_fn].
    + destruct (resubscribes [state s; previous]) as [v ->]. cbn [run].
      apply IH. exists (length (listeners s)). split; [lia|].
      apply (resubscribe_last f (log (Notified f (state s) previous) s)).
    + destruct (run_observer (body g [state s; previous])
                  (log (Notified g (state s) previous) s) (others_observe _ _ Hne))
        as (a & s1 & -> & _ & Hls & _).
      apply IH. exists j. rewrite Hls. simpl. split; [|done].
      destruct (decide (i = j)) as [->|]; [congruence|lia].
  - apply IH. exists j. split; [|done].
    destruct (decide (i = j)) as [->|]; [congruence|lia].
  - apply lookup_ge_None_1 in Hi. lia.
Qed.
End Resubscribing.

(** X8. A listener that, when notified, unsubscribes itself and subscribes
    itself again is put at the end of the registry each time, where the
    running pass finds it again: if it is registered and the other
    listeners only observe, an accepted mutation never returns, whatever
    the number of steps allowed. *)
Theorem resubscribing_listener_never_returns body f fuel partial replace s next s1 :
  (∀ args, ∃ v, body f args = CallUnsubscribe f (CallSubscribe f (Done v))) →
  (∀ g args, g ≠ f → observer (body g args)) →
  nextState_of (call_fn body fuel) partial s = Some (Normal next s1) →
  next ≠ state s1 → f ∈ registered s1 →
  store_setState body fuel partial replace s = None.
Proof.
  intros Hre Hobs Hn Hne Hf. unfold store_setState.
  rewrite (setState_accepts _ _ _ _ _ _ _ Hn Hne). unfold notify.
  apply (forEach_resubscribing body f Hre Hobs).
  apply registered_elem, list_elem_of_lookup_1 in Hf as [j Hj].
  exists j. rewrite assign_state_listeners. split; [lia|done].
Qed.

Lemma resubscribing_listener_never_returns_witness :
  store_setState resubscribing 1000 (VObj 1) None store_123 = None.
Proof.
  apply (resubscribing_listener_never_returns resubscribing 1 1000 (VObj 1) None
           store_123 (VObj 1) store_123).
  - intros args. by exists VUndefined.
  - intros [|[|g]] args Hne; [exact I|done|exact I].
  - reflexivity.
  - discriminate.
  - apply registered_elem. simpl. apply list_elem_of_here.
Defined.

(** ** Every listener learns the final snapshot *)






Section Told.
Variable body : fid → list value → prog value.






End Told.



(** ** The arguments of the listeners, without re-entrancy *)

Lemma run_never_sets_notifications call n {A} (p : prog A) : ∀ s r,
  never_sets p → run call n p s = Some r →
  notifications (trace (store_of r)) = notifications (trace s).
Proof.
  induction p as [a|e|v k IH|o k IH|l k IH|pa rp k IH|k IH|k IH|f k IH|f k IH];
    intros s r Hq; simpl in *; try done.
  - by intros [= <-].
  - by intros [= <-].
  - intros Hr. rewrite (IH _ _ Hq Hr). simpl. rewrite notifications_app.
    by rewrite app_nil_r.
  - intros Hr. by rewrite (IH _ _ _ (Hq _) Hr).
  - intros Hr. by rewrite (IH _ _ _ (Hq _) Hr).
  - intros Hr. by rewrite (IH _ _ _ (Hq _) Hr).
  - unfold getInitialState. destruct (initialState s).
    + intros Hr. by rewrite (IH _ _ _ (Hq _) Hr).
    + by intros [= <-].
  - intros Hr. by rewrite (IH _ _ Hq Hr).
  - intros Hr. by rewrite (IH _ _ Hq Hr).
Qed.

Lemma forEach_never_sets_notifications body fuel previous n : ∀ i s r,
  (∀ f args, never_sets (body f args)) →
  forEach n i (notify_one (call_fn body fuel) previous) s = Some r →
  ∃ invoked,
    notifications (trace (store_of r))
    = notifications (trace s) ++ ((λ g, (g, state s, previous)) <$> invoked).
Proof.
  induction n as [|n IH]; intros i s r Hq; [done|]. cbn [forEach].
  destruct (listeners s !! i) as [[g|]|]; [|by apply IH|].
  - destruct (notify_one (call_fn body fuel) previous g s) as [[v s1|e s1]|] eqn:Hcb;
      [| |done]; unfold notify_one in Hcb; (destruct fuel as [|fuel]; [done|]);
      pose proof (run_never_sets _ _ _ _ _ (Hq _ _) Hcb) as Hst;
      pose proof (run_never_sets_notifications _ _ _ _ _ (Hq _ _) Hcb) as Htr;
      cbn [store_of log state trace] in Hst, Htr;
      rewrite notifications_app in Htr;
      change (notifications [Notified g (state s) previous])
        with [(g, state s, previous)] in Htr.
    + intros Hr. destruct (IH _ _ _ Hq Hr) as [invoked Hinv].
      exists (g :: invoked). rewrite Hinv, Htr, Hst. simpl.
      by rewrite <- app_assoc.
    + intros [= <-]. exists [g]. cbn [store_of]. by rewrite Htr.
  - intros [= <-]. exists []. simpl. by rewrite app_nil_r.
Qed.

(** X10. When no listener re-enters [setState], every invocation of a
    listener that an accepted mutation makes, up to the moment it returns
    or a listener throws, has the arguments (new snapshot, previous
    snapshot) of that mutation, whatever the listeners do to the
    registry. *)
Theorem listeners_get_the_pair_of_the_mutation body fuel partial replace s next s1 r :
  (∀ f args, never_sets (body f args)) →
  nextState_of (call_fn body fuel) partial s = Some (Normal next s1) →
  next ≠ state s1 →
  store_setState body fuel partial replace s = Some r →
  ∃ invoked,
    notifications (trace (store_of r))
    = notifications (trace s1)
      ++ ((λ g, (g, state (assign_state replace next s1), state s1)) <$> invoked).
Proof.
  intros Hq Hn Hne. unfold store_setState.
  rewrite (setState_accepts _ _ _ _ _ _ _ Hn Hne). unfold notify.
  intros Hpass.
  destruct (forEach_never_sets_notifications _ _ _ _ _ _ _ Hq Hpass) as [invoked Hinv].
  exists invoked. by rewrite Hinv, assign_state_trace.
Qed.

(** Listener 1 unsubscribes itself and listener 2 and subscribes listener
    4: listeners 1, 3 and 4 are invoked, each with (3, 0). *)
Lemma listeners_get_the_pair_of_the_mutation_witness :
  ∃ r invoked,
    store_setState meddling 5 (VObj 1) None store_123 = Some r
    ∧ notifications (trace (store_of r)) = (λ g, (g, VObj 3, VObj 0)) <$> invoked.
Proof.
  assert (∃ r, store_setState meddling 5 (VObj 1) None store_123 = Some r)
    as [r Hr] by (eexists; reflexivity).
  assert (∀ f args, never_sets (meddling f args)) as Hq.
  { intros [|[|f]] args; exact I. }
  destruct (listeners_get_the_pair_of_the_mutation meddling 5 (VObj 1) None store_123
              (VObj 1) store_123 r Hq eq_refl ltac:(discriminate) Hr)
    as [invoked Hinv].
  exists r, invoked. split; [exact Hr|exact Hinv].
Defined.

(** ** Mutations and the registry *)

Section RegistryFree.
Variable body : fid → list value → prog value.
Hypothesis free : ∀ f args, registry_free (body f args).

Lemma forEach_registry_free call previous n : ∀ i s r,
  (∀ f args s r, call f args s = Some r → listeners (store_of r) = listeners s) →
  forEach n i (notify_one call previous) s = Some r →
  listeners (store_of r) = listeners s.
Proof.
  induction n as [|n IH]; intros i s r Hcall; [done|]. cbn [forEach].
  destruct (listeners s !! i) as [[g|]|]; [|by apply IH|by intros [= <-]].
  destruct (notify_one call previous g s) as [[v s1|e s1]|] eqn:Hcb; [| |done];
    unfold notify_one in Hcb; apply Hcall in Hcb; simpl in Hcb.
  - intros Hr. by rewrite (IH _ _ _ Hcall Hr).
  - by intros [= <-].
Qed.

Lemma setState_registry_free call n partial replace s r :
  (∀ f args s r, call f args s = Some r → listeners (store_of r) = listeners s) →
  setState call n partial replace s = Some r →
  listeners (store_of r) = listeners s.
Proof.
  intros Hcall. unfold setState.
  destruct (nextState_of call partial s) as [[next s1|e s1]|] eqn:Hn; [| |done].
  - assert (listeners s1 = listeners s) as Hs1.
    { destruct partial; simpl in Hn; try (by injection Hn as <- <-).
      by apply Hcall in Hn. }
    destruct (negb (Object_is next (state s1))).
    + intros Hr. apply forEach_registry_free in Hr; [|done].
      by rewrite Hr, assign_state_listeners.
    + by intros [= <-].
  - intros [= <-]. destruct partial; simpl in Hn; try done. by apply Hcall in Hn.
Qed.

Lemma run_registry_free call n {A} (p : prog A) : ∀ s r,
  (∀ f args s r, call f args s = Some r → listeners (store_of r) = listeners s) →
  registry_free p → run call n p s = Some r →
  listeners (store_of r) = listeners s.
Proof.
  induction p as [a|e|v k IH|o k IH|l k IH|pa rp k IH|k IH|k IH|f k IH|f k IH];
    intros s r Hcall Hfree; simpl in *; try done.
  - by intros [= <-].
  - by intros [= <-].
  - intros Hr. by rewrite (IH _ _ Hcall Hfree Hr).
  - intros Hr. by rewrite (IH _ _ _ Hcall (Hfree _) Hr).
  - intros Hr. by rewrite (IH _ _ _ Hcall (Hfree _) Hr).
  - destruct (setState call n pa rp s) as [[u s1|e s1]|] eqn:Hs; [| |done].
    + intros Hr. rewrite (IH _ _ Hcall Hfree Hr).
      by apply (setState_registry_free _ _ _ _ _ _ Hcall Hs).
    + intros [= <-]. by apply (setState_registry_free _ _ _ _ _ _ Hcall Hs).
  - intros Hr. by rewrite (IH _ _ _ Hcall (Hfree _) Hr).
  - unfold getInitialState. destruct (initialState s).
    + intros Hr. by rewrite (IH _ _ _ Hcall (Hfree _) Hr).
    + by intros [= <-].
Qed.

Lemma call_fn_registry_free fuel : ∀ f args s r,
  call_fn body fuel f args s = Some r → listeners (store_of r) = listeners s.
Proof.
  induction fuel as [|n IH]; intros f args s r; simpl; [done|].
  apply run_registry_free; [exact IH|apply free].
Qed.
End RegistryFree.

(** X11. [setState] does not touch the registry: when no user function
    calls [subscribe] or an unsubscribing closure, the registry after any
    sequence of mutations, re-entrant ones included, returned or thrown,
    is the registry before it. *)
Theorem mutations_leave_the_registry body fuel calls : ∀ s r,
  (∀ f args, registry_free (body f args)) →
  setState_seq body fuel calls s = Some r →
  listeners (store_of r) = listeners s.
Proof.
  induction calls as [|[partial replace] rest IH]; intros s r Hfree; simpl.
  - by intros [= <-].
  - destruct (store_setState body fuel partial replace s) as [[u s1|e s1]|] eqn:Hs;
      [| |done].
    + intros Hr. rewrite (IH _ _ Hfree Hr).
      by apply (setState_registry_free _ _ _ _ _ _ (call_fn_registry_free body Hfree fuel) Hs).
    + intros [= <-].
      by apply (setState_registry_free _ _ _ _ _ _ (call_fn_registry_free body Hfree fuel) Hs).
Qed.

Lemma mutations_leave_the_registry_witness :
  ∃ r, setState_seq reentrant 4 [(VObj 1, None); (VNum 7, Some true)] store_n = Some r
    ∧ listeners (store_of r) = [Some 1; Some 2]
    ∧ getState (store_of r) = VNum 7.
Proof.
  eexists. split; [reflexivity|]. split; [|reflexivity].
  refine (mutations_leave_the_registry reentrant 4
            [(VObj 1, None); (VNum 7, Some true)] store_n _ _ eq_refl).
  intros [|[|f]] [|a [|b [|c args]]]; try exact I; destruct b; try exact I;
    destruct l as [|[|l]]; exact I.
Defined.
